(** * govendor, package [rewrite]: the vendoring commands of command.go

    A shallow embedding of [rewrite/command.go]: the status enumeration and
    its printing, the ordering used by [CmdList], and the commands
    [CmdInit], [CmdList], [CmdAdd], [CmdUpdate] and [CmdRemove] written in a
    small state monad over the file system; followed by the properties of
    these definitions.

    Conventions.  A Go [byte] or [int] is a [Z]; a Go [string] is a
    [string] (a sequence of 8-bit characters); a Go [map] is a [gmap].  The
    model fixes the Unix build, where [filepath.Separator] is ['/'] and
    package [path/filepath] joins and cleans paths as package [path] does. *)

From Stdlib Require Import ZArith Ascii String List Lia Bool.
From stdpp Require Import base tactics option list sorting gmap strings.
From Equations Require Import Equations.

Local Open Scope string_scope.
Local Open Scope Z_scope.

(** ** ListStatus *)

(** [type ListStatus byte]. *)
Definition ListStatus : Type := Z.

(** The values a [byte] can take. *)
Definition is_byte (b : Z) : Prop := 0 <= b < 256.

Definition StatusUnknown : ListStatus := 0.
Definition StatusMissing : ListStatus := 1.
Definition StatusStd : ListStatus := 2.
Definition StatusLocal : ListStatus := 3.
Definition StatusExternal : ListStatus := 4.
Definition StatusInternal : ListStatus := 5.
Definition StatusUnused : ListStatus := 6.

(** [func (ls ListStatus) String() string]: the cases of the [switch] are
    tried in order; falling out of it returns the empty string. *)
Definition ListStatus_String (ls : ListStatus) : string :=
  if ls =? StatusUnknown then "?"
  else if ls =? StatusMissing then "m"
  else if ls =? StatusStd then "s"
  else if ls =? StatusLocal then "l"
  else if ls =? StatusExternal then "e"
  else if ls =? StatusInternal then "i"
  else if ls =? StatusUnused then "u"
  else "".

(** ** ListItem *)

Record ListItem : Type := mkListItem {
  ListItem_Status : ListStatus;
  ListItem_Path : string
}.

(** [func (li ListItem) String() string]. *)
Definition ListItem_String (li : ListItem) : string :=
  ListStatus_String (ListItem_Status li) ++ " " ++ ListItem_Path li.

(** ** strings.Compare *)

(** [strings.Compare(a, b)]: -1, 0 or +1 by the lexicographic order of the
    bytes. *)
Definition strings_Compare (a b : string) : Z :=
  match String.compare a b with
  | Lt => -1
  | Eq => 0
  | Gt => 1
  end.

(** ** ListItemSort, the [sort.Interface] of the list of items *)

(** An index expression [l[i]] of Go: out of range it panics, which is
    [None] here. *)
Definition index {A : Type} (l : list A) (i : Z) : option A :=
  if (0 <=? i) && (i <? Z.of_nat (length l)) then l !! Z.to_nat i else None.

(** The three methods of [sort.Interface]; [Less] and [Swap] read elements
    by index and may panic. *)
Class sort_Interface (T : Type) : Type := {
  Len : T -> Z;
  Less : T -> Z -> Z -> option bool;
  Swap : T -> Z -> Z -> option T
}.

(** [type ListItemSort []ListItem]. *)
Definition ListItemSort : Type := list ListItem.

(** The comparison [Less] makes between the two items it has read:
    equal statuses are ordered by [strings.Compare] of the paths, different
    ones by the greater status first. *)
Definition ListItem_less (a b : ListItem) : bool :=
  if ListItem_Status a =? ListItem_Status b
  then strings_Compare (ListItem_Path a) (ListItem_Path b) <? 0
  else ListItem_Status a >? ListItem_Status b.

Definition ListItemSort_Len (li : ListItemSort) : Z := Z.of_nat (length li).

Definition ListItemSort_Swap (li : ListItemSort) (i j : Z) : option ListItemSort :=
  match index li j, index li i with
  | Some lj, Some li_i => Some (<[Z.to_nat j := li_i]> (<[Z.to_nat i := lj]> li))
  | _, _ => None
  end.

Definition ListItemSort_Less (li : ListItemSort) (i j : Z) : option bool :=
  match index li i, index li j with
  | Some a, Some b => Some (ListItem_less a b)
  | _, _ => None
  end.

#[export] Instance ListItemSort_Interface : sort_Interface ListItemSort := {
  Len := ListItemSort_Len;
  Less := ListItemSort_Less;
  Swap := ListItemSort_Swap
}.

(** ** sort.Sort *)

(** Package [sort] promises of [sort.Sort] that the data is rearranged (by
    swaps) so that no element is [Less] than one before it, and nothing on
    the order of elements neither of which is [Less] than the other.  The
    model is the insertion sort that the library runs on short slices,
    written on the list of elements; [sort_Sort_unique] below shows that for
    [ListItemSort] every rearrangement meeting the promise is this one. *)
Section Sort.
Context {A : Type} (less : A -> A -> bool).

(** The inner loop of [insertionSort]: [x] is put before the elements it is
    less than. *)
Fixpoint insert_sorted (x : A) (l : list A) : list A :=
  match l with
  | [] => [x]
  | y :: l' => if less x y then x :: y :: l' else y :: insert_sorted x l'
  end.

Fixpoint insertionSort (l : list A) : list A :=
  match l with
  | [] => []
  | x :: l' => insert_sorted x (insertionSort l')
  end.

End Sort.

Definition sort_Sort (li : ListItemSort) : ListItemSort :=
  insertionSort ListItem_less li.

(** ** Package strings: Index, Split, Join *)

(** The slices [s[:n]] and [s[n:]] of a string, for [n] within its length. *)
Fixpoint slice_to (n : nat) (s : string) : string :=
  match n, s with
  | S n', String c s' => String c (slice_to n' s')
  | _, _ => ""
  end.

Fixpoint slice_from (n : nat) (s : string) : string :=
  match n, s with
  | S n', String _ s' => slice_from n' s'
  | _, _ => s
  end.

(** [strings.Index(s, sep)]: the index of the first instance of [sep] in
    [s], or -1 when there is none. *)
Fixpoint strings_Index (s sep : string) : Z :=
  if String.prefix sep s then 0
  else match s with
       | "" => -1
       | String _ s' =>
           let m := strings_Index s' sep in
           if m <? 0 then -1 else m + 1
       end.

(** [explode], which [strings.Split] runs for the empty separator: one
    string per character.  Go cuts after each UTF-8 sequence, here after
    each byte, the same on ASCII strings; no separator of this program is
    empty. *)
Fixpoint explode (s : string) : list string :=
  match s with
  | "" => []
  | String c s' => String c "" :: explode s'
  end.

(** [strings.Split(s, sep)], that is [genSplit(s, sep, 0, -1)]: while [sep]
    occurs in [s], the part before its first instance is cut off and the
    search goes on after it; what remains is the last piece. *)
Equations? strings_Split (s sep : string) : list string by wf (String.length s) lt :=
strings_Split s "" := explode s;
strings_Split s sep with Z_lt_dec (strings_Index s sep) 0 := {
  | left _ => [s]
  | right Hge =>
      let m := Z.to_nat (strings_Index s sep) in
      slice_to m s :: strings_Split (slice_from (m + String.length sep) s) sep
  }.
Proof.
  clear strings_Split.
  assert (Hlen : forall n t, (String.length (slice_from n t) <= String.length t)%nat).
  { induction n as [|n IH]; intros [|y t]; simpl; auto. }
  destruct s as [|x s]; [simpl in Hge; lia|].
  subst m. rewrite Nat.add_comm. simpl.
  match goal with |- (String.length (slice_from ?n _) < _)%nat => specialize (Hlen n s) end.
  lia.
Qed.

(** [strings.Join(a, sep)]. *)
Fixpoint strings_Join (a : list string) (sep : string) : string :=
  match a with
  | [] => ""
  | [x] => x
  | x :: rest => x ++ sep ++ strings_Join rest sep
  end.

(** ** Package path: Clean and Join *)

Definition is_slash (c : ascii) : bool := (c =? "/")%char.
Definition is_dot (c : ascii) : bool := (c =? ".")%char.

(** The test [r == n || path[r] == '/'] on the rest of the path: an element
    ends here. *)
Definition elem_ends (p : string) : bool :=
  match p with
  | "" => true
  | String c _ => is_slash c
  end.

(** The byte [out.index(i)] of the output buffer. *)
Definition buf_index (out : string) (i : nat) : ascii :=
  match String.get i out with
  | Some c => c
  | None => "000"%char
  end.

(** The loop [for out.w > dotdot && out.index(out.w) != '/' { out.w-- }]
    of the [..] case, started at [out.w = w]; the result is the final
    [out.w]. *)
Fixpoint backtrack (out : string) (dotdot w : nat) : nat :=
  match w with
  | O => O
  | S w' =>
      if (dotdot <? w)%nat && negb (is_slash (buf_index out w))
      then backtrack out dotdot w'
      else w
  end.

(** The [..] case of [Clean]: the new buffer and the new [dotdot]. *)
Definition Clean_dotdot (rooted : bool) (out : string) (dotdot : nat) : string * nat :=
  let w := String.length out in
  if (dotdot <? w)%nat then
    (slice_to (backtrack out dotdot (w - 1)) out, dotdot)
  else if negb rooted then
    let out1 := if (0 <? w)%nat then out ++ "/" else out in
    let out2 := out1 ++ ".." in
    (out2, String.length out2)
  else (out, dotdot).

(** The main loop of [path.Clean] on the unread part [p] of the path, with
    the bytes written so far in [out].  With [copying] the loop is inside
    the [default] case, copying a path element up to the next slash (which
    the next round then skips as an empty element); otherwise it is at the
    head of the [for] and picks one of the four cases of the [switch]. *)
Fixpoint Clean_loop (rooted copying : bool) (p out : string) (dotdot : nat) : string :=
  match p with
  | "" => out
  | String c p1 =>
      if is_slash c then Clean_loop rooted false p1 out dotdot
      else if copying then Clean_loop rooted true p1 (out ++ String c "") dotdot
      else if is_dot c && elem_ends p1 then Clean_loop rooted false p1 out dotdot
      else
        let w := String.length out in
        let out1 :=
          if (rooted && negb (w =? 1)%nat) || (negb rooted && negb (w =? 0)%nat)
          then out ++ "/" else out in
        let default := Clean_loop rooted true p1 (out1 ++ String c "") dotdot in
        match p1 with
        | String c1 p2 =>
            if is_dot c && is_dot c1 && elem_ends p2 then
              let '(out', dotdot') := Clean_dotdot rooted out dotdot in
              Clean_loop rooted false p2 out' dotdot'
            else default
        | "" => default
        end
  end.

(** [path.Clean(path)]. *)
Definition path_Clean (path : string) : string :=
  match path with
  | "" => "."
  | String c p1 =>
      let out :=
        if is_slash c then Clean_loop true false p1 "/" 1
        else Clean_loop false false path "" 0 in
      if (String.length out =? 0)%nat then "." else out
  end.

(** [path.Join(elem...)]: the elements from the first non-empty one on,
    joined by slashes and cleaned. *)
Fixpoint path_Join (elem : list string) : string :=
  match elem with
  | [] => ""
  | e :: rest =>
      if (e =? "")%string then path_Join rest
      else path_Clean (strings_Join elem "/")
  end.

(** [filepath.Join] where the separator is the slash. *)
Definition filepath_Join (elem : list string) : string := path_Join elem.

(** ** Constants and errors *)

Definition vendorFilename : string := "vendor.json".
Definition internalFolder : string := "internal".
Definition toolName : string := "github.com/kardianos/vendor".

(** [filepath.Separator], as a string. *)
Definition filepath_Separator : string := "/".

Definition internalVendor : string := filepath_Join [internalFolder; vendorFilename].
Definition internalFolderSlash : string :=
  filepath_Separator ++ internalFolder ++ filepath_Separator.

(** The error values of Go that the commands return or test: the six values
    the package makes with [errors.New], its [ErrNotInGOPATH], and those of
    the operating system that [os.IsNotExist] tells apart. *)
Inductive error : Type :=
| ErrVendorFileExists
| ErrMissingVendorFile
| ErrMissingGOROOT
| ErrMissingGOPATH
| ErrVendorExists
| ErrLocalPackage
| ErrNotInGOPATH (Missing : string)
| os_ErrNotExist
| syscall_Errno (errno : Z)
| os_PathError (Op Path : string) (Err : error)
| errors_New (text : string).

Definition syscall_ENOENT : Z := 2.
Definition syscall_EACCES : Z := 13.

(** The text of the errors built by [errors.New] in the [var] block. *)
Definition error_text (e : error) : option string :=
  match e with
  | ErrVendorFileExists => Some (internalVendor ++ " file already exists.")
  | ErrMissingVendorFile => Some "Unable to find internal folder with vendor file."
  | ErrMissingGOROOT => Some "Unable to determine GOROOT."
  | ErrMissingGOPATH => Some "Missing GOPATH."
  | ErrVendorExists => Some "Package already exists as a vendor package."
  | ErrLocalPackage => Some "Cannot vendor a local package."
  | errors_New text => Some text
  | _ => None
  end.

(** [os.IsNotExist(err)]: a [*PathError] is unwrapped once, and the error
    is then compared with [ENOENT] and [os.ErrNotExist]; [nil] is not such
    an error. *)
Definition os_IsNotExist (err : option error) : bool :=
  match err with
  | None => false
  | Some e =>
      match (match e with os_PathError _ _ e' => e' | _ => e end) with
      | syscall_Errno n => n =? syscall_ENOENT
      | os_ErrNotExist => true
      | _ => false
      end
  end.

(** ** The data of the package that command.go works on *)

(** Modelled from the spec: the declaration of [VendorPackage] is in
    another file of the package; command.go sets [Vendor] and [Local] and
    leaves the optional [Version] and [VersionTime] at their zero value. *)
Record VendorPackage : Type := mkVendorPackage {
  VendorPackage_Vendor : string;
  VendorPackage_Local : string;
  VendorPackage_Version : option string;
  VendorPackage_VersionTime : option string
}.

(** Modelled from the spec: the declaration of [VendorFile] is in another
    file; it has the tool's name and the sequence of packages. *)
Record VendorFile : Type := mkVendorFile {
  VendorFile_Tool : string;
  VendorFile_Package : list VendorPackage
}.

(** Modelled from the spec: the declaration of [Package] is in another
    file; command.go reads [Dir], [ImportPath] and [Status]. *)
Record Package : Type := mkPackage {
  Package_Dir : string;
  Package_ImportPath : string;
  Package_Status : ListStatus
}.

(** Modelled from the spec: the declaration of [Rule] is in another file. *)
Record Rule : Type := mkRule {
  Rule_From : string;
  Rule_To : string
}.

(** Modelled from the spec: the declaration of [Context] is in another
    file; these are the fields command.go uses.  [Package] maps an import
    path to a pointer to its package, [nil] where the path is absent;
    every key the map stores has a package here: a key stored with a [nil]
    pointer, which the loop of [CmdList] would dereference, is not
    represented.  [fileImports] maps an import path to the files that
    import it. *)
Record Context : Type := mkContext {
  Context_RootDir : string;
  Context_RootGopath : string;
  Context_RootImportPath : string;
  Context_VendorFile : VendorFile;
  Context_Package : gmap string Package;
  Context_fileImports : gmap string (list string)
}.

(** The assignment [ctx.VendorFile.Package = append(ctx.VendorFile.Package, vp)]. *)
Definition Context_append_package (ctx : Context) (vp : VendorPackage) : Context :=
  mkContext (Context_RootDir ctx) (Context_RootGopath ctx) (Context_RootImportPath ctx)
    (mkVendorFile (VendorFile_Tool (Context_VendorFile ctx))
       (VendorFile_Package (Context_VendorFile ctx) ++ [vp]))
    (Context_Package ctx) (Context_fileImports ctx).

(** ** The file system and the rest of the package *)

(** A call that changes the file system, with what it returned. *)
Inductive Call : Type :=
| Call_MkdirAll (path : string) (perm : Z) (err : option error)
| Call_writeVendorFile (root : string) (vf : VendorFile) (err : option error)
| Call_CopyPackage (src dst : string) (err : option error)
| Call_RewriteFiles (files : list string) (rules : list Rule) (err : option error).

(** What command.go calls and does not define: the functions of package
    [os], and those of package [rewrite] that are in its other files.  A
    function that only reads takes the state [World] of the file system and
    environment; one that writes also returns the new state.  Ranging over
    a map visits its entries in an order Go leaves open. *)
Class Env (World : Type) : Type := {
  os_Getwd : World -> string + error;
  os_Stat : World -> string -> option error;
  os_MkdirAll : string -> Z -> World -> World * option error;
  NewContextWD : World -> Context + error;
  LoadPackage : World -> Context -> list string -> Context + error;
  writeVendorFile : string -> VendorFile -> World -> World * option error;
  CopyPackage : string -> string -> World -> World * option error;
  RewriteFiles : list string -> list Rule -> World -> World * option error;
  slashToImportPath : string -> string;
  slashToFilepath : string -> string;
  range_Package : World -> gmap string Package -> list (string * Package);
  range_Package_perm : forall w m, range_Package w m ≡ₚ map_to_list m
}.

(** ** The monad of the commands *)

(** A command ends by returning or in a run-time panic. *)
Inductive Res (A : Type) : Type :=
| Done (a : A)
| Panic.
Arguments Done {A} a.
Arguments Panic {A}.

(** A computation from a state of the world: the new state, the calls that
    changed it, in order, and the result. *)
Definition M (World A : Type) : Type := World -> World * list Call * Res A.

Definition ret {World A : Type} (a : A) : M World A := fun w => (w, [], Done a).

Definition panic {World A : Type} : M World A := fun w => (w, [], Panic).

Definition bind {World A B : Type} (c : M World A) (k : A -> M World B) : M World B :=
  fun w =>
    match c w with
    | (w1, calls1, Done a) =>
        match k a w1 with
        | (w2, calls2, r) => (w2, (calls1 ++ calls2)%list, r)
        end
    | (w1, calls1, Panic) => (w1, calls1, Panic)
    end.

(** The three parts of a run. *)
Definition world_of {World A : Type} (x : World * list Call * Res A) : World := fst (fst x).
Definition calls_of {World A : Type} (x : World * list Call * Res A) : list Call := snd (fst x).
Definition result_of {World A : Type} (x : World * list Call * Res A) : Res A := snd x.

(** A function that reads the world. *)
Definition reading {World A : Type} (f : World -> A) : M World A :=
  fun w => (w, [], Done (f w)).

(** A function that writes it; the call is recorded. *)
Definition writing {World : Type} (f : World -> World * option error)
    (call : option error -> Call) : M World (option error) :=
  fun w => match f w with (w1, err) => (w1, [call err], Done err) end.

(** The result types of the commands: [error], and a value with an error,
    with the value that [return err] and [return nil, err] give. *)
Class Failing (R : Type) : Type := failing : error -> R.
#[export] Instance Failing_error : Failing (option error) := fun e => Some e.
#[export] Instance Failing_value {A : Type} : Failing (A + error) := fun e => inr e.

Declare Scope go_scope.
Delimit Scope go_scope with go.

Notation "'let!' x ':=' c 'in' k" := (bind c (fun x => k))
  (at level 10, x name, c at level 100, k at level 200) : go_scope.

(** [x, err := c; if err != nil { return err }]. *)
Notation "'try!' x ':=' c 'in' k" :=
  (bind c (fun r => match r with inl x => k | inr e => ret (failing e) end))
  (at level 10, x name, c at level 100, k at level 200) : go_scope.

(** [err = c; if err != nil { return err }]. *)
Notation "'check!' c 'in' k" :=
  (bind c (fun r => match r with None => k | Some e => ret (failing e) end))
  (at level 10, c at level 100, k at level 200) : go_scope.

(** ** The commands *)

Section Commands.
Context {World : Type} {env : Env World}.
Local Open Scope go_scope.

(** [writeVendorFile], [os.MkdirAll], [CopyPackage] and [RewriteFiles] as
    steps of a command. *)
Definition do_MkdirAll (path : string) (perm : Z) : M World (option error) :=
  writing (os_MkdirAll path perm) (Call_MkdirAll path perm).

Definition do_writeVendorFile (root : string) (vf : VendorFile) : M World (option error) :=
  writing (writeVendorFile root vf) (Call_writeVendorFile root vf).

Definition do_CopyPackage (src dst : string) : M World (option error) :=
  writing (CopyPackage src dst) (Call_CopyPackage src dst).

Definition do_RewriteFiles (files : list string) (rules : list Rule) : M World (option error) :=
  writing (RewriteFiles files rules) (Call_RewriteFiles files rules).

(** [func CmdInit() error]. *)
Definition CmdInit : M World (option error) :=
  try! wd := reading os_Getwd in
  let! err := reading (fun w => os_Stat w (filepath_Join [wd; internalVendor])) in
  if negb (os_IsNotExist err) then ret (Some ErrVendorFileExists)
  else
    check! do_MkdirAll (filepath_Join [wd; internalFolder]) 511 in
    let vf := mkVendorFile toolName [] in
    do_writeVendorFile wd vf.



(** The local import path that [CmdAdd] computes: the last piece of the
    import path split at [internalFolderSlash], joined to the root import
    path and [internalFolder].  The index expression [ss[len(ss)-1]]
    panics on an empty [ss]. *)
Definition localImportPath_of (ctx : Context) (importPath : string) : option string :=
  let ss := strings_Split importPath internalFolderSlash in
  match index ss (Z.of_nat (length ss) - 1) with
  | Some last_piece => Some (path_Join [Context_RootImportPath ctx; internalFolder; last_piece])
  | None => None
  end.

(** The error [CmdAdd] returns for a status other than [StatusExternal]. *)
Definition status_error (status : ListStatus) (importPath : string) : error :=
  if status =? StatusInternal then ErrVendorExists
  else if status =? StatusLocal then ErrLocalPackage
  else ErrNotInGOPATH importPath.

(** [func CmdAdd(importPath string) error].  [ctx.Package[importPath]] is a
    pointer, [nil] for an absent path, and reading [pkg.Status] through
    [nil] panics. *)
Definition CmdAdd (importPath : string) : M World (option error) :=
  let importPath := slashToImportPath importPath in
  try! ctx := reading NewContextWD in
  try! ctx := reading (fun w => LoadPackage w ctx [importPath]) in
  match Context_Package ctx !! importPath with
  | None => panic
  | Some pkg =>
      if negb (Package_Status pkg =? StatusExternal)
      then ret (Some (status_error (Package_Status pkg) importPath))
      else
        match localImportPath_of ctx importPath with
        | None => panic
        | Some localImportPath =>
            let ctx := Context_append_package ctx
                         (mkVendorPackage importPath localImportPath None None) in
            check! do_writeVendorFile (Context_RootDir ctx) (Context_VendorFile ctx) in
            check! do_CopyPackage (Package_Dir pkg)
                     (filepath_Join [Context_RootGopath ctx; slashToFilepath localImportPath]) in
            try! ctx := reading (fun w => LoadPackage w ctx [importPath]) in
            let files := default [] (Context_fileImports ctx !! importPath) in
            check! do_RewriteFiles files [mkRule importPath localImportPath] in
            ret None
        end
  end.

(** [func CmdUpdate(importPath string) error]. *)
Definition CmdUpdate (importPath : string) : M World (option error) := ret None.

(** [func CmdRemove(importPath string) error]. *)
Definition CmdRemove (importPath : string) : M World (option error) := ret None.

End Commands.

(** ** A workspace to run the commands in *)

(** A small file system with a GOPATH workspace: the paths that exist, those
    a [stat] is refused on, the manifest of the project, what the loader
    finds, and what has been copied and rewritten so far.  A write fails
    when the workspace says so. *)
Module Workspace.

Record t : Type := mk {
  wd : string;
  paths : list string;
  denied : list string;
  gopath : string;
  rootImportPath : string;
  manifest : option VendorFile;
  packages : gmap string Package;
  imports : gmap string (list string);
  installsFocus : bool;
  copied : list (string * string);
  rewritten : list (list string * list Rule);
  failWrite : option error;
  failCopy : option error;
  failRewrite : option error
}.

Definition stat (w : t) (p : string) : option error :=
  if bool_decide (p ∈ denied w) then Some (os_PathError "stat" p (syscall_Errno syscall_EACCES))
  else if bool_decide (p ∈ paths w) then None
  else Some (os_PathError "stat" p (syscall_Errno syscall_ENOENT)).

Definition with_paths (w : t) (ps : list string) : t :=
  mk (wd w) ps (denied w) (gopath w) (rootImportPath w) (manifest w) (packages w)
     (imports w) (installsFocus w) (copied w) (rewritten w)
     (failWrite w) (failCopy w) (failRewrite w).

Definition mkdirAll (p : string) (perm : Z) (w : t) : t * option error :=
  (with_paths w (p :: paths w), None).

Definition newContext (w : t) : Context + error :=
  match manifest w with
  | None => inr ErrMissingVendorFile
  | Some vf => inl (mkContext (wd w) (gopath w) (rootImportPath w) vf ∅ ∅)
  end.

(** The loader: the packages of the workspace and, when it installs the
    focus paths, a [StatusMissing] package for each one it did not find. *)
Fixpoint install (focus : list string) (m : gmap string Package) : gmap string Package :=
  match focus with
  | [] => m
  | p :: focus' =>
      let m' := install focus' m in
      match m' !! p with
      | Some _ => m'
      | None => <[p := mkPackage "" p StatusMissing]> m'
      end
  end.

Definition load (w : t) (ctx : Context) (focus : list string) : Context + error :=
  inl (mkContext (Context_RootDir ctx) (Context_RootGopath ctx) (Context_RootImportPath ctx)
         (Context_VendorFile ctx)
         (if installsFocus w then install focus (packages w) else packages w)
         (imports w)).

Definition write (root : string) (vf : VendorFile) (w : t) : t * option error :=
  match failWrite w with
  | Some e => (w, Some e)
  | None =>
      (mk (wd w) (filepath_Join [root; internalVendor] :: paths w) (denied w) (gopath w)
          (rootImportPath w) (Some vf) (packages w) (imports w) (installsFocus w)
          (copied w) (rewritten w) (failWrite w) (failCopy w) (failRewrite w), None)
  end.

Definition copy (src dst : string) (w : t) : t * option error :=
  match failCopy w with
  | Some e => (w, Some e)
  | None =>
      (mk (wd w) (dst :: paths w) (denied w) (gopath w) (rootImportPath w) (manifest w)
          (packages w) (imports w) (installsFocus w) ((src, dst) :: copied w) (rewritten w)
          (failWrite w) (failCopy w) (failRewrite w), None)
  end.

Definition rewriteFiles (files : list string) (rules : list Rule) (w : t) : t * option error :=
  match failRewrite w with
  | Some e => (w, Some e)
  | None =>
      (mk (wd w) (paths w) (denied w) (gopath w) (rootImportPath w) (manifest w)
          (packages w) (imports w) (installsFocus w) (copied w) ((files, rules) :: rewritten w)
          (failWrite w) (failCopy w) (failRewrite w), None)
  end.

(** Backslashes become slashes. *)
Fixpoint toSlash (s : string) : string :=
  match s with
  | "" => ""
  | String c s' => String (if (c =? "\")%char then "/"%char else c) (toSlash s')
  end.

#[global] Instance env : Env t := {
  os_Getwd w := inl (wd w);
  os_Stat := stat;
  os_MkdirAll := mkdirAll;
  NewContextWD := newContext;
  LoadPackage := load;
  writeVendorFile := write;
  CopyPackage := copy;
  RewriteFiles := rewriteFiles;
  slashToImportPath := toSlash;
  slashToFilepath s := s;
  range_Package _ m := map_to_list m;
  range_Package_perm _ m := reflexivity _
}.

(** A project [proj] under [/go/src] that has been initialised and imports
    [fmt], [example.com/foo] and [yours/internal/yourpkg] from the
    workspace.  The loader may install the focus paths or not, and the copy
    may fail. *)
Definition foo : Package :=
  mkPackage "/go/src/example.com/foo" "example.com/foo" StatusExternal.

Definition yourpkg : Package :=
  mkPackage "/go/src/yours/internal/yourpkg" "yours/internal/yourpkg" StatusExternal.

Definition project_with (installs : bool) (copyError : option error) : t :=
  mk "/go/src/proj"
     ["/go/src/proj"; "/go/src/proj/internal"; "/go/src/proj/internal/vendor.json";
      "/go/src/proj/main.go"; "/go/src/example.com/foo"; "/go/src/yours/internal/yourpkg"]
     []
     "/go/src" "proj" (Some (mkVendorFile toolName []))
     {[ "example.com/foo" := foo;
        "yours/internal/yourpkg" := yourpkg;
        "proj" := mkPackage "/go/src/proj" "proj" StatusLocal;
        "fmt" := mkPackage "/usr/lib/go/src/fmt" "fmt" StatusStd ]}
     {[ "example.com/foo" := ["/go/src/proj/main.go"];
        "yours/internal/yourpkg" := ["/go/src/proj/main.go"];
        "fmt" := ["/go/src/proj/main.go"] ]}
     installs [] [] None copyError None.

Definition project : t := project_with true None.

Definition project_lazy : t := project_with false None.

Definition project_copy_fails : t :=
  project_with true (Some (errors_New "no space left on device")).

(** The context of [project] as [NewContextWD] makes it, and as the loader
    fills it. *)
Definition project_context0 : Context :=
  mkContext "/go/src/proj" "/go/src" "proj" (mkVendorFile toolName []) ∅ ∅.

Definition project_context : Context :=
  mkContext "/go/src/proj" "/go/src" "proj" (mkVendorFile toolName [])
    (packages project) (imports project).

(** A directory [/go/src/new] that is not a project yet; in [fresh_denied]
    it has a directory [internal] that may not be searched. *)
Definition fresh_with (ps denied_paths : list string) : t :=
  mk "/go/src/new" ps denied_paths "/go/src" "new" None ∅ ∅ true [] [] None None None.

Definition fresh : t := fresh_with ["/go/src/new"] [].

Definition fresh_denied : t :=
  fresh_with ["/go/src/new"; "/go/src/new/internal"] ["/go/src/new/internal/vendor.json"].

End Workspace.

(** ** Notions used in the statements *)

(** [a] may stand before [b] in a sorted list: [b] is not less than [a]. *)
Definition in_order (a b : ListItem) : Prop := ListItem_less b a = false.


(** [part] is a piece that [strings.Split] cuts off: in [part ++ sep] the
    first instance of [sep] is the one at the end. *)
Definition split_piece (sep part : string) : Prop :=
  strings_Index (part ++ sep) sep = Z.of_nat (String.length part).

(** Whether [p], read from the start of a path element ([start]) or from
    inside one, is made of names joined by single slashes: no empty
    element, no [.], no [..], and a name at the end. *)
Fixpoint plain_from (start : bool) (p : string) : bool :=
  match p with
  | "" => negb start
  | String c p1 =>
      if is_slash c then negb start && plain_from true p1
      else if start && is_dot c &&
              (elem_ends p1 ||
               match p1 with
               | String c1 p2 => is_dot c1 && elem_ends p2
               | "" => false
               end)
      then false
      else plain_from false p1
  end.

(** A relative path that [path.Clean] has nothing to do on. *)
Definition plain_path (p : string) : bool := plain_from true p.

(** The seven statuses that have a name. *)
Definition defined_status (ls : ListStatus) : Prop := StatusUnknown <= ls <= StatusUnused.

(** An absolute path made of a slash and a plain path. *)
Definition abs_plain_path (p : string) : bool :=
  match p with
  | String c q => is_slash c && plain_path q
  | "" => false
  end.

(** * Properties *)

(** ** The functions of the Go library on the examples of their packages *)

Example strings_Index_examples :
  strings_Index "chicken" "ken" = 4 /\ strings_Index "chicken" "dmr" = -1 /\
  strings_Index "chicken" "" = 0.
Proof. repeat split. Qed.

Example strings_Split_examples :
  strings_Split "a,b,c" "," = ["a"; "b"; "c"] /\
  strings_Split "a man a plan a canal panama" "a " = [""; "man "; "plan "; "canal panama"] /\
  strings_Split " xyz " "" = [" "; "x"; "y"; "z"; " "] /\
  strings_Split "" "Bernardo O'Higgins" = [""] /\
  strings_Split "a/internal/b/internal/c" internalFolderSlash = ["a"; "b"; "c"] /\
  strings_Split "a/internal/internal/c" internalFolderSlash = ["a"; "internal/c"].
Proof. repeat split. Qed.

(** The table of the tests of [path.Clean]. *)
Example path_Clean_examples :
  forallb (fun t => (path_Clean (fst t) =? snd t)%string)
    [
      ("", ".");
      ("abc", "abc");
      ("abc/def", "abc/def");
      ("a/b/c", "a/b/c");
      (".", ".");
      ("..", "..");
      ("../..", "../..");
      ("../../abc", "../../abc");
      ("/abc", "/abc");
      ("/", "/");
      ("abc/", "abc");
      ("abc/def/", "abc/def");
      ("a/b/c/", "a/b/c");
      ("./", ".");
      ("../", "..");
      ("../../", "../..");
      ("/abc/", "/abc");
      ("abc//def//ghi", "abc/def/ghi");
      ("//abc", "/abc");
      ("///abc", "/abc");
      ("//abc//", "/abc");
      ("abc//", "abc");
      ("abc/./def", "abc/def");
      ("/./abc/def", "/abc/def");
      ("abc/.", "abc");
      ("abc/def/ghi/../jkl", "abc/def/jkl");
      ("abc/def/../ghi/../jkl", "abc/jkl");
      ("abc/def/..", "abc");
      ("abc/def/../..", ".");
      ("/abc/def/../..", "/");
      ("abc/def/../../..", "..");
      ("/abc/def/../../..", "/");
      ("abc/def/../../../ghi/jkl/../../../mno", "../../mno");
      ("abc/./../def", "def");
      ("abc//./../def", "def");
      ("abc/../../././../def", "../../def");
      ("a.b/..c/.d/...", "a.b/..c/.d/...");
      ("/../a", "/a")] = true.
Proof. reflexivity. Qed.

Example path_Join_examples :
  path_Join ["a"; "b"] = "a/b" /\ path_Join ["a"; ""] = "a" /\ path_Join [""; "b"] = "b" /\
  path_Join ["/"; "a"] = "/a" /\ path_Join ["a/"; "b"] = "a/b" /\ path_Join [""; ""] = "" /\
  path_Join ["a/b"; "../../../xyz"] = "../xyz" /\
  filepath_Join ["/go/src"; "proj/internal/example.com/foo"]
  = "/go/src/proj/internal/example.com/foo".
Proof. repeat split. Qed.

Example ListItem_String_example :
  ListItem_String (mkListItem StatusExternal "example.com/foo") = "e example.com/foo".
Proof. reflexivity. Qed.

(** ** The order of the items *)

Lemma Ascii_compare_refl (c : ascii) : Ascii.compare c c = Eq.
Proof. unfold Ascii.compare. apply N.compare_refl. Qed.

Lemma String_compare_refl (s : string) : String.compare s s = Eq.
Proof. induction s as [|c s IH]; simpl; [|rewrite Ascii_compare_refl]; done. Qed.

Lemma Ascii_compare_lt_trans (x y z : ascii) :
  Ascii.compare x y = Lt -> Ascii.compare y z = Lt -> Ascii.compare x z = Lt.
Proof.
  unfold Ascii.compare. rewrite !N.compare_lt_iff. lia.
Qed.

Lemma String_compare_lt_trans (a b c : string) :
  String.compare a b = Lt -> String.compare b c = Lt -> String.compare a c = Lt.
Proof.
  revert b c. induction a as [|x a IH]; intros [|y b] [|z c]; simpl; try done.
  destruct (Ascii.compare x y) eqn:Hxy; try done;
    destruct (Ascii.compare y z) eqn:Hyz; try done; intros Hab Hbc.
  - apply Ascii.compare_eq_iff in Hxy, Hyz. subst. rewrite Ascii_compare_refl. eauto.
  - apply Ascii.compare_eq_iff in Hxy. subst. by rewrite Hyz.
  - apply Ascii.compare_eq_iff in Hyz. subst. by rewrite Hxy.
  - by rewrite (Ascii_compare_lt_trans x y z).
Qed.

Lemma strings_Compare_neg (a b : string) :
  (strings_Compare a b <? 0) = true <-> String.compare a b = Lt.
Proof. unfold strings_Compare. destruct (String.compare a b); simpl; split; done. Qed.

Lemma ListItem_less_spec (a b : ListItem) :
  ListItem_less a b = true <->
  (ListItem_Status a > ListItem_Status b) \/
  (ListItem_Status a = ListItem_Status b /\
   String.compare (ListItem_Path a) (ListItem_Path b) = Lt).
Proof.
  unfold ListItem_less.
  destruct (Z.eqb_spec (ListItem_Status a) (ListItem_Status b)) as [He|Hne].
  - rewrite strings_Compare_neg. split; [auto|]. intros [?|[_ ?]]; [lia|done].
  - rewrite Z.gtb_gt. split; [auto|]. intros [?|[? _]]; done.
Qed.

Lemma ListItem_less_irrefl (a : ListItem) : ListItem_less a a = false.
Proof.
  apply not_true_iff_false. rewrite ListItem_less_spec, String_compare_refl.
  intros [?|[_ ?]]; [lia|done].
Qed.

Lemma ListItem_less_asym (a b : ListItem) :
  ListItem_less a b = true -> ListItem_less b a = false.
Proof.
  intros Hab. apply not_true_iff_false. revert Hab. rewrite !ListItem_less_spec.
  intros [?|[? Hab]] [?|[? Hba]]; try lia.
  rewrite String.compare_antisym, Hab in Hba. done.
Qed.

Lemma ListItem_less_trans (a b c : ListItem) :
  ListItem_less a b = true -> ListItem_less b c = true -> ListItem_less a c = true.
Proof.
  rewrite !ListItem_less_spec.
  intros [?|[? Hab]] [?|[? Hbc]]; try (left; lia).
  right. split; [congruence|]. eauto using String_compare_lt_trans.
Qed.

Lemma ListItem_less_total (a b : ListItem) :
  (ListItem_Status a, ListItem_Path a) <> (ListItem_Status b, ListItem_Path b) ->
  ListItem_less a b = true \/ ListItem_less b a = true.
Proof.
  intros Hne. rewrite !ListItem_less_spec.
  destruct (Z.lt_trichotomy (ListItem_Status a) (ListItem_Status b)) as [?|[He|?]];
    [right; left; lia| |left; left; lia].
  destruct (String.compare (ListItem_Path a) (ListItem_Path b)) eqn:Hc.
  - apply String.compare_eq_iff in Hc. congruence.
  - left. right. done.
  - right. right. split; [done|]. rewrite String.compare_antisym, Hc. done.
Qed.

Lemma ListItem_eq (a b : ListItem) :
  ListItem_Status a = ListItem_Status b -> ListItem_Path a = ListItem_Path b -> a = b.
Proof. destruct a, b; simpl; congruence. Qed.

Lemma in_order_spec (a b : ListItem) : in_order a b <-> a = b \/ ListItem_less a b = true.
Proof.
  unfold in_order. split.
  - intros Hba.
    destruct (decide ((ListItem_Status a, ListItem_Path a)
                      = (ListItem_Status b, ListItem_Path b))) as [[=]|Hne].
    + left. by apply ListItem_eq.
    + destruct (ListItem_less_total a b Hne) as [?|?]; [by right|congruence].
  - intros [->|?]; [apply ListItem_less_irrefl|by apply ListItem_less_asym].
Qed.

#[export] Instance in_order_trans : Transitive in_order.
Proof.
  intros a b c. rewrite !in_order_spec.
  intros [->|?] [->|?]; eauto using ListItem_less_trans.
Qed.

#[export] Instance in_order_antisym : AntiSymm (=) in_order.
Proof.
  intros a b. rewrite in_order_spec. intros [->|Hab] Hba; [done|].
  unfold in_order in Hba. congruence.
Qed.

(** ** sort.Sort *)

Lemma insert_sorted_perm {A : Type} (less : A -> A -> bool) (x : A) (l : list A) :
  insert_sorted less x l ≡ₚ x :: l.
Proof.
  induction l as [|y l IH]; simpl; [done|].
  destruct (less x y); [done|]. rewrite IH. apply Permutation_swap.
Qed.

Lemma insertionSort_perm {A : Type} (less : A -> A -> bool) (l : list A) :
  insertionSort less l ≡ₚ l.
Proof.
  induction l as [|x l IH]; simpl; [done|]. by rewrite insert_sorted_perm, IH.
Qed.

Lemma insert_sorted_HdRel (a x : ListItem) (l : list ListItem) :
  in_order a x -> HdRel in_order a l -> HdRel in_order a (insert_sorted ListItem_less x l).
Proof.
  intros Hax Hl. destruct l as [|y l]; simpl; [by constructor|].
  destruct (ListItem_less x y); constructor; [done|]. by inversion Hl.
Qed.

Lemma insert_sorted_Sorted (x : ListItem) (l : list ListItem) :
  Sorted in_order l -> Sorted in_order (insert_sorted ListItem_less x l).
Proof.
  induction 1 as [|y l Hl IH Hy]; simpl; [by repeat constructor|].
  destruct (ListItem_less x y) eqn:Hxy.
  - constructor; [by constructor|]. constructor. by apply ListItem_less_asym.
  - constructor; [done|]. by apply insert_sorted_HdRel.
Qed.

Lemma sort_Sort_Sorted (li : ListItemSort) : Sorted in_order (sort_Sort li).
Proof.
  unfold sort_Sort. induction li as [|x li IH]; simpl; [constructor|].
  by apply insert_sorted_Sorted.
Qed.

Lemma sort_Sort_perm (li : ListItemSort) : sort_Sort li ≡ₚ li.
Proof. apply insertionSort_perm. Qed.

(** Whatever [sort.Sort] does inside, its result is this list: a
    rearrangement of the items in which no item is less than one before
    it. *)
Lemma sort_Sort_unique (li sorted : ListItemSort) :
  sorted ≡ₚ li -> Sorted in_order sorted -> sorted = sort_Sort li.
Proof.
  intros Hp Hs. apply (Sorted_unique in_order); [done|apply sort_Sort_Sorted|].
  by rewrite sort_Sort_perm.
Qed.



(** C9: [ListItemSort.Less] is a strict total order on the items: at valid
    indices [Less(i, j)] and [Less(j, i)] both return and are never both
    true, exactly one is true when the (Status, Path) pairs differ, and
    the comparison is transitive; so the sorted list is the same for every
    arrangement of the same items. *)
Theorem ListItemSort_Less_strict_total (li : ListItemSort) (i j : Z) (a b : ListItem) :
  index li i = Some a ->
  index li j = Some b ->
  (exists lt_ij lt_ji : bool,
     Less li i j = Some lt_ij /\ Less li j i = Some lt_ji /\
     (lt_ij && lt_ji) = false /\
     ((ListItem_Status a, ListItem_Path a) <> (ListItem_Status b, ListItem_Path b) ->
      xorb lt_ij lt_ji = true)) /\
  (forall c : ListItem,
     ListItem_less a b = true -> ListItem_less b c = true -> ListItem_less a c = true) /\
  (forall li' : ListItemSort, li' ≡ₚ li -> sort_Sort li' = sort_Sort li).
Proof.
  intros Ha Hb. split; [|split].
  - exists (ListItem_less a b), (ListItem_less b a). simpl. unfold ListItemSort_Less.
    rewrite Ha, Hb. do 2 (split; [done|]). split.
    + destruct (ListItem_less a b) eqn:Hab; [|done]. by apply ListItem_less_asym.
    + intros Hne. destruct (ListItem_less_total a b Hne) as [Hab|Hba].
      * by rewrite Hab, (ListItem_less_asym a b).
      * by rewrite Hba, (ListItem_less_asym b a).
  - intros c. apply ListItem_less_trans.
  - intros li' Hp. symmetry. apply sort_Sort_unique; [|apply sort_Sort_Sorted].
    by rewrite sort_Sort_perm.
Qed.

(** Three items of a listing: the two external packages are ordered by path,
    and the reversed list sorts to the same list. *)
Lemma ListItemSort_Less_strict_total_witness :
  let li := [mkListItem StatusStd "fmt"; mkListItem StatusExternal "example.com/foo";
             mkListItem StatusExternal "example.com/bar"] in
  Less li 1 2 = Some false /\ Less li 2 1 = Some true /\
  sort_Sort (rev li) = sort_Sort li.
Proof.
  intros li.
  destruct (ListItemSort_Less_strict_total li 1 2
              (mkListItem StatusExternal "example.com/foo")
              (mkListItem StatusExternal "example.com/bar")
              eq_refl eq_refl) as [_ [_ Hsort]].
  split; [reflexivity|]. split; [reflexivity|].
  apply Hsort. symmetry. apply Permutation_rev.
Defined.

(** ** ListStatus.String *)

(** C8: [ListStatus.String] returns for every byte: the seven letters for
    [StatusUnknown] to [StatusUnused], and the empty string for every
    other byte, so that [ListItem.String] of an item with such a status is
    a blank followed by the path. *)
Theorem ListStatus_String_total (ls : ListStatus) (path : string) :
  is_byte ls ->
  map ListStatus_String
    [StatusUnknown; StatusMissing; StatusStd; StatusLocal; StatusExternal;
     StatusInternal; StatusUnused]
  = ["?"; "m"; "s"; "l"; "e"; "i"; "u"] /\
  ListStatus_String ls = nth (Z.to_nat ls) ["?"; "m"; "s"; "l"; "e"; "i"; "u"] "" /\
  (StatusUnused < ls -> ListStatus_String ls = "") /\
  ListItem_String (mkListItem ls path) = ListStatus_String ls ++ " " ++ path /\
  (StatusUnused < ls -> ListItem_String (mkListItem ls path) = " " ++ path).
Proof.
  intros [Hlo Hhi]. split; [reflexivity|].
  assert (Hother : StatusUnused < ls -> ListStatus_String ls = "").
  { unfold ListStatus_String, StatusUnused, StatusInternal, StatusExternal, StatusLocal,
      StatusStd, StatusMissing, StatusUnknown.
    intros Hgt.
    repeat match goal with
           | |- context [ls =? ?k] => destruct (Z.eqb_spec ls k); [lia|]
           end.
    reflexivity. }
  split; [|split; [done|split; [reflexivity|]]].
  - destruct (Z_lt_dec StatusUnused ls) as [Hgt|Hle].
    + rewrite Hother by done. unfold StatusUnused in Hgt.
      rewrite nth_overflow; [done|]. simpl. lia.
    + unfold StatusUnused in Hle.
      assert (Hcases : ls = 0 \/ ls = 1 \/ ls = 2 \/ ls = 3 \/ ls = 4 \/ ls = 5 \/ ls = 6)
        by lia.
      destruct Hcases as [->|[->|[->|[->|[->|[->| ->]]]]]]; reflexivity.
  - intros Hgt. unfold ListItem_String. simpl. by rewrite Hother.
Qed.

(** The byte 200 is no status: it prints as the empty string. *)
Lemma ListStatus_String_total_witness :
  ListStatus_String 200 = "" /\ ListItem_String (mkListItem 200 "fmt") = " fmt".
Proof.
  destruct (ListStatus_String_total 200 "fmt") as (_ & _ & Hs & _ & Hi).
  - unfold is_byte. lia.
  - split; [apply Hs|apply Hi]; reflexivity.
Defined.

(** ** The commands that do nothing *)

(** C7: for every import path, [CmdUpdate] and [CmdRemove] return [nil],
    make no call that writes, and leave the world as it is. *)
Theorem CmdUpdate_CmdRemove_noop {World : Type} {env : Env World}
    (importPath : string) (w : World) :
  CmdUpdate importPath w = (w, [], Done None) /\
  CmdRemove importPath w = (w, [], Done None).
Proof. split; reflexivity. Qed.

(** ** CmdList *)



(** ** Strings *)

Lemma append_nil_l (a : string) : "" ++ a = a.
Proof. reflexivity. Qed.

Lemma append_cons (x : ascii) (a b : string) : String x a ++ b = String x (a ++ b).
Proof. reflexivity. Qed.

(** Appends of string constructors are unfolded, then [simpl]. *)
Ltac ssimpl := repeat (progress (rewrite ?append_cons, ?append_nil_l; simpl)).
Lemma append_assoc (a b c : string) : (a ++ b) ++ c = a ++ b ++ c.
Proof. induction a as [|x a IH]; ssimpl; [done|by rewrite IH]. Qed.

Lemma append_nil_r (a : string) : a ++ "" = a.
Proof. induction a as [|x a IH]; ssimpl; [done|by rewrite IH]. Qed.

Lemma length_append (a b : string) :
  String.length (a ++ b) = (String.length a + String.length b)%nat.
Proof. induction a as [|x a IH]; ssimpl; [done|by rewrite IH]. Qed.

Lemma slice_to_append (a b : string) : slice_to (String.length a) (a ++ b) = a.
Proof. induction a as [|x a IH]; ssimpl; [by destruct b|by rewrite IH]. Qed.

Lemma slice_from_append (a b : string) : slice_from (String.length a) (a ++ b) = b.
Proof. induction a as [|x a IH]; ssimpl; [by destruct b|done]. Qed.

Lemma prefix_spec (p s : string) : String.prefix p s = true <-> exists t, s = p ++ t.
Proof.
  revert s. induction p as [|x p IH]; intros s; ssimpl.
  - destruct s; split; eauto.
  - destruct s as [|y s].
    + split; [done|]. by intros [t ?].
    + simpl. setoid_rewrite append_cons. destruct (ascii_dec x y) as [->|Hne].
      * rewrite IH. split; intros [t Ht]; exists t; congruence.
      * split; [done|]. intros [t Ht]. congruence.
Qed.

Lemma prefix_append_short (p a b : string) :
  (String.length p <= String.length a)%nat ->
  String.prefix p (a ++ b) = String.prefix p a.
Proof.
  revert a. induction p as [|x p IH]; intros a Hlen; simpl.
  - by destruct a, b.
  - destruct a as [|y a]; simpl in *; [lia|]. rewrite ?append_cons. simpl.
    destruct (ascii_dec x y); [|done]. apply IH. lia.
Qed.

Lemma prefix_refl (p t : string) : String.prefix p (p ++ t) = true.
Proof. apply prefix_spec. eauto. Qed.

Lemma prefix_nil (sep : string) : String.prefix sep "" = true -> sep = "".
Proof. by destruct sep. Qed.

(** ** strings.Index *)

Lemma strings_Index_cons (x : ascii) (s sep : string) :
  strings_Index (String x s) sep =
    if String.prefix sep (String x s) then 0
    else if strings_Index s sep <? 0 then -1 else strings_Index s sep + 1.
Proof. reflexivity. Qed.

Lemma strings_Index_nil (sep : string) :
  strings_Index "" sep = if String.prefix sep "" then 0 else -1.
Proof. reflexivity. Qed.

Lemma strings_Index_range (s sep : string) :
  strings_Index s sep = -1 \/ 0 <= strings_Index s sep <= Z.of_nat (String.length s).
Proof.
  induction s as [|x s IH].
  - rewrite strings_Index_nil. destruct (String.prefix sep ""); simpl; lia.
  - rewrite strings_Index_cons. destruct (String.prefix sep (String x s)); simpl String.length; [lia|].
    destruct (Z.ltb_spec (strings_Index s sep) 0); lia.
Qed.

Lemma strings_Index_neg (s sep : string) : strings_Index s sep < 0 <-> strings_Index s sep = -1.
Proof. destruct (strings_Index_range s sep); lia. Qed.

(** Where [strings.Index] finds [sep], it is there. *)
Lemma strings_Index_found (s sep : string) :
  0 <= strings_Index s sep ->
  let m := Z.to_nat (strings_Index s sep) in
  s = slice_to m s ++ sep ++ slice_from (m + String.length sep) s.
Proof.
  induction s as [|x s IH].
  - rewrite strings_Index_nil. destruct (String.prefix sep "") eqn:Hp; [|lia]. intros _.
    apply prefix_nil in Hp as ->. done.
  - rewrite strings_Index_cons. destruct (String.prefix sep (String x s)) eqn:Hp.
    + intros _. simpl. apply prefix_spec in Hp as [t Ht]. rewrite Ht at 1.
      rewrite append_nil_l. f_equal.
      rewrite Ht. by rewrite slice_from_append.
    + destruct (Z.ltb_spec (strings_Index s sep) 0) as [|Hge]; [lia|]. intros _.
      rewrite Z2Nat.inj_add, Nat.add_comm by lia. simpl. rewrite append_cons. f_equal.
      by apply IH.
Qed.

Lemma strings_Index_piece (sep part rest : string) :
  split_piece sep part ->
  strings_Index (part ++ sep ++ rest) sep = Z.of_nat (String.length part).
Proof.
  unfold split_piece. induction part as [|x part IH]; simpl String.length.
  - intros _. rewrite append_nil_l. pose proof (prefix_refl sep rest) as Hp.
    destruct (sep ++ rest) eqn:Hs.
    + rewrite strings_Index_nil. by rewrite Hp.
    + rewrite strings_Index_cons. by rewrite Hp.
  - rewrite !append_cons, !strings_Index_cons.
    rewrite <- (append_assoc part sep rest), <- (append_cons x (part ++ sep) rest).
    rewrite prefix_append_short by (simpl; rewrite length_append; lia).
    destruct (String.prefix sep (String x (part ++ sep))); [lia|].
    rewrite append_assoc.
    destruct (Z.ltb_spec (strings_Index (part ++ sep) sep) 0); [lia|].
    intros Hm. rewrite IH by lia.
    destruct (Z.ltb_spec (Z.of_nat (String.length part)) 0); lia.
Qed.

Lemma strings_Index_split_piece (s sep : string) :
  0 <= strings_Index s sep ->
  split_piece sep (slice_to (Z.to_nat (strings_Index s sep)) s).
Proof.
  unfold split_piece. induction s as [|x s IH].
  - rewrite strings_Index_nil. destruct (String.prefix sep "") eqn:Hp; [|lia]. intros _.
    apply prefix_nil in Hp as ->. done.
  - intros Hge. pose proof (strings_Index_found _ _ Hge) as Hfound. revert Hge Hfound.
    rewrite strings_Index_cons.
    destruct (String.prefix sep (String x s)) eqn:Hp.
    + intros _ _. simpl. rewrite append_nil_l.
      pose proof (prefix_refl sep "") as Hq. rewrite append_nil_r in Hq.
      destruct sep; [done|]. rewrite strings_Index_cons. by rewrite Hq.
    + destruct (Z.ltb_spec (strings_Index s sep) 0) as [|Hge]; [lia|]. intros _.
      replace (Z.to_nat (strings_Index s sep + 1)) with (S (Z.to_nat (strings_Index s sep)))
        by lia.
      cbn [slice_to slice_from String.length Nat.add]. rewrite !append_cons.
      intros [= Hs]. specialize (IH Hge).
      rewrite Hs in Hp.
      rewrite <- append_assoc in Hp.
      match type of Hp with
      | String.prefix _ (String _ (?a ++ ?r)) = _ => rewrite <- (append_cons x a r) in Hp
      end.
      rewrite prefix_append_short in Hp by (simpl; rewrite length_append; lia).
      rewrite strings_Index_cons, Hp, IH.
      destruct (Z.ltb_spec (Z.of_nat (String.length (slice_to (Z.to_nat (strings_Index s sep)) s))) 0); lia.
Qed.

(** ** strings.Split *)

Lemma strings_Split_step (s sep : string) :
  sep <> "" ->
  strings_Split s sep =
    if Z_lt_dec (strings_Index s sep) 0 then [s]
    else let m := Z.to_nat (strings_Index s sep) in
         slice_to m s :: strings_Split (slice_from (m + String.length sep) s) sep.
Proof.
  intros Hsep. destruct sep as [|c sep']; [done|]. simp strings_Split.
  destruct (Z_lt_dec (strings_Index s (String c sep')) 0); simp strings_Split; reflexivity.
Qed.

Lemma strings_Join_cons (x : string) (rest : list string) (sep : string) :
  rest <> [] -> strings_Join (x :: rest) sep = x ++ sep ++ strings_Join rest sep.
Proof. by destruct rest. Qed.

Lemma slice_from_length_le (n : nat) (s : string) :
  (String.length (slice_from n s) <= String.length s - n)%nat.
Proof.
  revert s. induction n as [|n IH]; intros [|x s]; simpl; try lia. apply IH.
Qed.

(** Joining what [strings.Split] returns gives the string back; every piece
    but the last is a [split_piece], and the last holds no separator. *)
Lemma strings_Split_pieces (s sep : string) :
  sep <> "" ->
  exists (parts : list string) (suf : string),
    strings_Split s sep = (parts ++ [suf])%list /\
    strings_Join (parts ++ [suf]) sep = s /\
    Forall (split_piece sep) parts /\
    strings_Index suf sep < 0.
Proof.
  intros Hsep. remember (String.length s) as n eqn:Hn. revert s Hn.
  induction n as [n IH] using lt_wf_ind. intros s ->.
  rewrite strings_Split_step by done.
  destruct (Z_lt_dec (strings_Index s sep) 0) as [Hlt|Hge].
  - exists [], s. done.
  - apply Z.nlt_ge in Hge. cbv zeta.
    set (m := Z.to_nat (strings_Index s sep)).
    pose proof (strings_Index_found s sep Hge) as Hs. cbv zeta in Hs. fold m in Hs.
    destruct (IH (String.length (slice_from (m + String.length sep) s)))
      with (s := slice_from (m + String.length sep) s)
      as (parts & suf & Hsplit & Hjoin & Hparts & Hsuf); [|done|].
    { pose proof (slice_from_length_le (m + String.length sep) s) as Hle.
      assert (String.length sep > 0)%nat by (destruct sep; [done|simpl; lia]).
      assert (String.length s > 0)%nat; [|lia].
      destruct s; [|simpl; lia]. rewrite strings_Index_nil in Hge.
      destruct (String.prefix sep "") eqn:Hp; [|lia]. by apply prefix_nil in Hp. }
    exists (slice_to m s :: parts), suf. rewrite Hsplit. split; [done|]. split; [|split].
    + change ((slice_to m s :: parts) ++ [suf])%list with (slice_to m s :: (parts ++ [suf]))%list.
      rewrite strings_Join_cons by (by destruct parts). rewrite Hjoin. by rewrite <- Hs.
    + constructor; [|done]. by apply strings_Index_split_piece.
    + done.
Qed.

(** [strings.Split] undoes [strings.Join] of such pieces. *)
Lemma strings_Split_Join (sep : string) (parts : list string) (suf : string) :
  sep <> "" ->
  Forall (split_piece sep) parts ->
  strings_Index suf sep < 0 ->
  strings_Split (strings_Join (parts ++ [suf]) sep) sep = (parts ++ [suf])%list.
Proof.
  intros Hsep Hparts Hsuf. induction Hparts as [|part parts Hpart Hparts IH].
  - simpl. rewrite strings_Split_step by done.
    by destruct (Z_lt_dec (strings_Index suf sep) 0).
  - change ((part :: parts) ++ [suf])%list with (part :: (parts ++ [suf]))%list.
    rewrite strings_Join_cons by (by destruct parts).
    rewrite strings_Split_step by done.
    rewrite strings_Index_piece by done.
    destruct (Z_lt_dec _ 0) as [?|_]; [lia|]. cbv zeta.
    rewrite Nat2Z.id, slice_to_append.
    rewrite <- length_append, <- append_assoc, slice_from_append. by rewrite IH.
Qed.

Lemma index_last {A : Type} (l : list A) (x : A) :
  index (l ++ [x]) (Z.of_nat (length (l ++ [x])) - 1) = Some x.
Proof.
  unfold index. rewrite length_app. simpl.
  destruct (Z.leb_spec 0 (Z.of_nat (length l + 1) - 1)); [|lia].
  destruct (Z.ltb_spec (Z.of_nat (length l + 1) - 1) (Z.of_nat (length l + 1))); [|lia].
  simpl. replace (Z.to_nat (Z.of_nat (length l + 1) - 1)) with (length l + 0)%nat by lia.
  by rewrite lookup_app_r, Nat.add_0_r, Nat.sub_diag by lia.
Qed.

(** ** path.Clean and path.Join on plain paths *)

Lemma is_slash_eq (c : ascii) : is_slash c = true -> c = "/"%char.
Proof. apply Ascii.eqb_eq. Qed.

Lemma length_zero (s : string) : (String.length s =? 0)%nat = true <-> s = "".
Proof. destruct s; simpl; split; done. Qed.

Lemma append_not_nil (a : string) (c : ascii) : a ++ String c "" <> "".
Proof. by destruct a. Qed.

Lemma Clean_loop_plain (p : string) :
  forall (out : string) (dotdot : nat),
    (plain_from true p = true ->
     Clean_loop false false p out dotdot
     = out ++ (if (String.length out =? 0)%nat then "" else "/") ++ p) /\
    (plain_from false p = true -> out <> "" ->
     Clean_loop false true p out dotdot = out ++ p).
Proof.
  induction p as [|c p1 IH]; intros out dotdot.
  - split; [done|]. intros _ _. simpl. by rewrite append_nil_r.
  - split.
    + simpl. destruct (is_slash c) eqn:Hs; [done|]. simpl.
      destruct (is_dot c && elem_ends p1) eqn:Hd1; simpl.
      { apply andb_true_iff in Hd1 as [-> ->]. done. }
      intros Hplain.
      assert (Hdefault :
        Clean_loop false true p1
          ((if negb (String.length out =? 0)%nat then out ++ "/" else out) ++ String c "") dotdot
        = out ++ (if (String.length out =? 0)%nat then "" else "/") ++ String c p1).
      { destruct (IH ((if negb (String.length out =? 0)%nat then out ++ "/" else out)
                      ++ String c "") dotdot) as [_ ->].
        - destruct (String.length out =? 0)%nat; simpl; by rewrite !append_assoc.
        - clear -Hplain. destruct (is_dot c); simpl in Hplain; [|done].
          by destruct (elem_ends p1 || _).
        - apply append_not_nil. }
      destruct p1 as [|c1 p2]; [exact Hdefault|].
      destruct (is_dot c && is_dot c1 && elem_ends p2) eqn:Hd2; [|exact Hdefault].
      apply andb_true_iff in Hd2 as [Hd2 He]. apply andb_true_iff in Hd2 as [Hc Hc1].
      rewrite Hc, Hc1, He in Hplain. simpl in Hplain.
      by rewrite orb_true_r in Hplain.
    + simpl. destruct (is_slash c) eqn:Hs; simpl.
      * intros Hplain Hout. apply is_slash_eq in Hs as ->.
        destruct (IH out dotdot) as [-> _]; [|done].
        destruct (String.length out =? 0)%nat eqn:Hlen; [|done].
        by apply length_zero in Hlen.
      * intros Hplain Hout.
        destruct (IH (out ++ String c "") dotdot) as [_ ->]; [|done|apply append_not_nil].
        by rewrite append_assoc.
Qed.

Lemma path_Clean_plain (p : string) : plain_path p = true -> path_Clean p = p.
Proof.
  unfold plain_path, path_Clean. intros Hplain.
  destruct p as [|c p1]; [done|].
  destruct (is_slash c) eqn:Hs; [by simpl in Hplain; rewrite Hs in Hplain|].
  destruct (Clean_loop_plain (String c p1) "" 0) as [-> _]; [|done]. done.
Qed.

Lemma elem_ends_append (a q : string) : elem_ends (a ++ "/" ++ q) = elem_ends a.
Proof. by destruct a. Qed.

Lemma plain_from_append (start : bool) (a q : string) :
  plain_from start (a ++ "/" ++ q) = plain_from start a && plain_from true q.
Proof.
  revert start. induction a as [|c a1 IH]; intros start.
  - simpl. done.
  - rewrite append_cons. simpl. destruct (is_slash c).
    + rewrite IH. by rewrite andb_assoc.
    + rewrite elem_ends_append.
      replace (match a1 ++ "/" ++ q with
               | "" => false
               | String c1 p2 => is_dot c1 && elem_ends p2
               end)
        with (match a1 with
              | "" => false
              | String c1 p2 => is_dot c1 && elem_ends p2
              end).
      * destruct (start && is_dot c && _); [done|apply IH].
      * destruct a1 as [|c1 a2]; [done|]. rewrite append_cons. by rewrite elem_ends_append.
Qed.

(** Joining plain paths: the elements with slashes between them. *)
Lemma path_Join_plain (root suffix : string) :
  plain_path root = true -> plain_path suffix = true ->
  path_Join [root; internalFolder; suffix] = root ++ "/internal/" ++ suffix.
Proof.
  unfold plain_path. intros Hroot Hsuffix. unfold path_Join.
  destruct (String.eqb_spec root "") as [->|_]; [done|].
  change (strings_Join [root; internalFolder; suffix] "/")
    with (root ++ "/" ++ "internal" ++ "/" ++ suffix).
  rewrite path_Clean_plain; [done|].
  unfold plain_path. rewrite !plain_from_append, Hroot, Hsuffix. done.
Qed.

(** ** CmdAdd *)

(** The index expression of [CmdAdd] never panics: [strings.Split] with the
    separator [internalFolderSlash] returns at least one piece, and the
    last one is what the local import path is made of. *)
Lemma localImportPath_of_pieces (ctx : Context) (importPath : string) :
  exists (parts : list string) (suf : string),
    strings_Split importPath internalFolderSlash = (parts ++ [suf])%list /\
    strings_Join (parts ++ [suf]) internalFolderSlash = importPath /\
    Forall (split_piece internalFolderSlash) parts /\
    strings_Index suf internalFolderSlash < 0 /\
    localImportPath_of ctx importPath
    = Some (path_Join [Context_RootImportPath ctx; internalFolder; suf]).
Proof.
  destruct (strings_Split_pieces importPath internalFolderSlash)
    as (parts & suf & Hsplit & Hjoin & Hparts & Hsuf); [done|].
  exists parts, suf. repeat (split; [done|]).
  unfold localImportPath_of. cbv zeta. by rewrite Hsplit, index_last.
Qed.

(** A call is not in a list of calls of other kinds. *)
Ltac not_in_calls H :=
  repeat (apply elem_of_cons in H as [H|H]; [discriminate H|]);
  by apply elem_of_nil in H.

(** The call of [H] is the first of its kind in the list. *)
Ltac first_in_calls H :=
  repeat (apply elem_of_cons in H as [H|H]; [try discriminate H|]);
  [injection H as -> -> ->|not_in_calls H].

Section CmdAdd_properties.
Context {World : Type} {env : Env World}.

(** The run of [CmdAdd] on a package whose status is [StatusExternal]. *)
Lemma CmdAdd_external (w : World) (importPath : string) (ctx0 ctx : Context) (pkg : Package) :
  let ip := slashToImportPath importPath in
  NewContextWD w = inl ctx0 ->
  LoadPackage w ctx0 [ip] = inl ctx ->
  Context_Package ctx !! ip = Some pkg ->
  Package_Status pkg = StatusExternal ->
  exists (parts : list string) (suf : string),
    strings_Split ip internalFolderSlash = (parts ++ [suf])%list /\
    let localImportPath := path_Join [Context_RootImportPath ctx; internalFolder; suf] in
    let ctx' := Context_append_package ctx (mkVendorPackage ip localImportPath None None) in
    let dst := filepath_Join [Context_RootGopath ctx; slashToFilepath localImportPath] in
    let cw := Call_writeVendorFile (Context_RootDir ctx) (Context_VendorFile ctx') in
    let cc := Call_CopyPackage (Package_Dir pkg) dst in
    exists (w1 : World) (werr : option error),
      writeVendorFile (Context_RootDir ctx) (Context_VendorFile ctx') w = (w1, werr) /\
      match werr with
      | Some e => CmdAdd importPath w = (w1, [cw werr], Done (Some e))
      | None =>
          exists (w2 : World) (cerr : option error),
            CopyPackage (Package_Dir pkg) dst w1 = (w2, cerr) /\
            match cerr with
            | Some e => CmdAdd importPath w = (w2, [cw None; cc cerr], Done (Some e))
            | None =>
                match LoadPackage w2 ctx' [ip] with
                | inr e => CmdAdd importPath w = (w2, [cw None; cc None], Done (Some e))
                | inl ctx2 =>
                    let files := default [] (Context_fileImports ctx2 !! ip) in
                    let rules := [mkRule ip localImportPath] in
                    exists (w3 : World) (rerr : option error),
                      RewriteFiles files rules w2 = (w3, rerr) /\
                      CmdAdd importPath w
                      = (w3, [cw None; cc None; Call_RewriteFiles files rules rerr], Done rerr)
                end
            end
      end.
Proof.
  intros ip Hnew Hload Hpkg Hext.
  destruct (localImportPath_of_pieces ctx ip) as (parts & suf & Hsplit & _ & _ & _ & Hlocal).
  exists parts, suf. split; [done|]. cbv zeta.
  unfold CmdAdd, bind, reading, ret, do_writeVendorFile, do_CopyPackage, do_RewriteFiles, writing.
  fold ip. rewrite Hnew, Hload, Hpkg, Hext, Hlocal. simpl.
  destruct (writeVendorFile _ _ w) as [w1 [e|]]; eexists _, _; (split; [done|]); [done|].
  destruct (CopyPackage _ _ w1) as [w2 [e|]]; eexists _, _; (split; [done|]); [done|].
  destruct (LoadPackage w2 _ _) as [ctx2|e]; [|done].
  destruct (RewriteFiles _ _ w2) as [w3 [e|]]; eexists _, _; (split; [done|]); done.
Qed.


(** The run of [CmdAdd] on a package with another status. *)
Lemma CmdAdd_other_status (w : World) (importPath : string) (ctx0 ctx : Context)
    (pkg : Package) :
  let ip := slashToImportPath importPath in
  NewContextWD w = inl ctx0 ->
  LoadPackage w ctx0 [ip] = inl ctx ->
  Context_Package ctx !! ip = Some pkg ->
  Package_Status pkg <> StatusExternal ->
  CmdAdd importPath w = (w, [], Done (Some (status_error (Package_Status pkg) ip))).
Proof.
  intros ip Hnew Hload Hpkg Hext.
  unfold CmdAdd, bind, reading, ret. fold ip. rewrite Hnew, Hload, Hpkg.
  destruct (Z.eqb_spec (Package_Status pkg) StatusExternal); done.
Qed.

(** C3: for a package that is loaded with a status other than
    [StatusExternal], [CmdAdd] returns the error of that status --
    [ErrVendorExists] for [StatusInternal], [ErrLocalPackage] for
    [StatusLocal], [ErrNotInGOPATH] with the import path for any other --
    before any call that writes: the world is unchanged. *)
Theorem CmdAdd_not_external (w : World) (importPath : string) (ctx0 ctx : Context)
    (pkg : Package) :
  let ip := slashToImportPath importPath in
  NewContextWD w = inl ctx0 ->
  LoadPackage w ctx0 [ip] = inl ctx ->
  Context_Package ctx !! ip = Some pkg ->
  Package_Status pkg <> StatusExternal ->
  exists e : error,
    CmdAdd importPath w = (w, [], Done (Some e)) /\
    (Package_Status pkg = StatusInternal -> e = ErrVendorExists) /\
    (Package_Status pkg = StatusLocal -> e = ErrLocalPackage) /\
    (Package_Status pkg <> StatusInternal -> Package_Status pkg <> StatusLocal ->
     e = ErrNotInGOPATH ip).
Proof.
  intros ip Hnew Hload Hpkg Hext.
  exists (status_error (Package_Status pkg) ip). split.
  - by apply CmdAdd_other_status with ctx0 ctx.
  - unfold status_error.
    destruct (Z.eqb_spec (Package_Status pkg) StatusInternal) as [->|?];
      [by repeat split|].
    destruct (Z.eqb_spec (Package_Status pkg) StatusLocal) as [->|?]; by repeat split.
Qed.

(** C10: [CmdAdd] reads the status through the map entry of the import
    path without testing that it is there.  When the load succeeds and
    leaves no entry for the path, [CmdAdd] panics, before any write; when
    every successful load leaves an entry, [CmdAdd] does not panic. *)
Theorem CmdAdd_nil_package (w : World) (importPath : string) :
  let ip := slashToImportPath importPath in
  (forall ctx0 ctx : Context,
     NewContextWD w = inl ctx0 -> LoadPackage w ctx0 [ip] = inl ctx ->
     Context_Package ctx !! ip = None ->
     CmdAdd importPath w = (w, [], Panic)) /\
  ((forall ctx0 ctx : Context,
      NewContextWD w = inl ctx0 -> LoadPackage w ctx0 [ip] = inl ctx ->
      is_Some (Context_Package ctx !! ip)) ->
   result_of (CmdAdd importPath w) <> Panic).
Proof.
  intros ip. split.
  - intros ctx0 ctx Hnew Hload Hpkg.
    unfold CmdAdd, bind, reading, panic. fold ip. by rewrite Hnew, Hload, Hpkg.
  - intros Hinstalled.
    destruct (NewContextWD w) as [ctx0|e] eqn:Hnew;
      [|by unfold CmdAdd, bind, reading, ret; rewrite Hnew].
    destruct (LoadPackage w ctx0 [ip]) as [ctx|e] eqn:Hload;
      [|by unfold CmdAdd, bind, reading, ret; fold ip; rewrite Hnew, Hload].
    destruct (Hinstalled ctx0 ctx eq_refl Hload) as [pkg Hpkg].
    destruct (decide (Package_Status pkg = StatusExternal)) as [Hext|Hext].
    + destruct (CmdAdd_external w importPath ctx0 ctx pkg Hnew Hload Hpkg Hext)
        as (parts & suf & _ & w1 & werr & _ & Hrun). cbv zeta in Hrun.
      destruct werr as [e|]; [by rewrite Hrun|].
      destruct Hrun as (w2 & cerr & _ & Hrun).
      destruct cerr as [e|]; [by rewrite Hrun|].
      destruct (LoadPackage w2 _ _) as [ctx2|e]; [|by rewrite Hrun].
      destruct Hrun as (w3 & rerr & _ & Hrun). by rewrite Hrun.
    + by rewrite (CmdAdd_other_status w importPath ctx0 ctx pkg Hnew Hload Hpkg Hext).
Qed.


(** C2, as the code has it: for an import path that [CmdAdd] accepts, the
    manifest entry that is written has the local path [path.Join] of the
    root import path, [internal] and the last piece of the import path cut
    at [/internal/]: the import path is the pieces joined by [/internal/],
    the last piece holds no [/internal/], it is the only one that can end
    such a cut, and a path without [/internal/] is kept whole. *)
Theorem CmdAdd_local_import_path (w : World) (importPath : string) (ctx0 ctx : Context)
    (pkg : Package) :
  let ip := slashToImportPath importPath in
  NewContextWD w = inl ctx0 ->
  LoadPackage w ctx0 [ip] = inl ctx ->
  Context_Package ctx !! ip = Some pkg ->
  Package_Status pkg = StatusExternal ->
  exists (parts : list string) (suf : string),
    ip = strings_Join (parts ++ [suf]) internalFolderSlash /\
    Forall (split_piece internalFolderSlash) parts /\
    strings_Index suf internalFolderSlash = -1 /\
    (strings_Index ip internalFolderSlash = -1 -> suf = ip) /\
    (forall (parts' : list string) (suf' : string),
       ip = strings_Join (parts' ++ [suf']) internalFolderSlash ->
       Forall (split_piece internalFolderSlash) parts' ->
       strings_Index suf' internalFolderSlash = -1 ->
       suf' = suf) /\
    exists (werr : option error) (rest : list Call),
      calls_of (CmdAdd importPath w)
      = Call_writeVendorFile (Context_RootDir ctx)
          (mkVendorFile (VendorFile_Tool (Context_VendorFile ctx))
             (VendorFile_Package (Context_VendorFile ctx)
              ++ [mkVendorPackage ip
                    (path_Join [Context_RootImportPath ctx; internalFolder; suf])
                    None None]))
          werr :: rest.
Proof.
  intros ip Hnew Hload Hpkg Hext.
  destruct (CmdAdd_external w importPath ctx0 ctx pkg Hnew Hload Hpkg Hext)
    as (parts & suf & Hsplit & w1 & werr & _ & Hrun). fold ip in Hsplit.
  destruct (strings_Split_pieces ip internalFolderSlash)
    as (parts1 & suf1 & Hsplit1 & Hjoin & Hparts & Hsuf); [done|].
  rewrite Hsplit in Hsplit1. apply app_inj_tail in Hsplit1 as [<- <-].
  exists parts, suf. split; [done|]. split; [done|].
  split; [by apply strings_Index_neg|]. split; [|split].
  - intros Hnone. rewrite strings_Split_step in Hsplit by done.
    destruct (Z_lt_dec _ 0) as [_|?]; [|lia].
    change [ip] with ([] ++ [ip])%list in Hsplit. by apply app_inj_tail in Hsplit as [_ ->].
  - intros parts' suf' Hjoin' Hparts' Hsuf'.
    pose proof (strings_Split_Join internalFolderSlash parts' suf') as Hsplit'.
    rewrite <- Hjoin', Hsplit in Hsplit'.
    apply app_inj_tail in Hsplit' as [_ ->]; [done..|]. by apply strings_Index_neg.
  - cbv zeta in Hrun. destruct werr as [e|]; [rewrite Hrun; by eexists _, _|].
    destruct Hrun as (w2 & cerr & _ & Hrun).
    destruct cerr as [e|]; [rewrite Hrun; by eexists _, _|].
    destruct (LoadPackage w2 _ _) as [ctx2|e]; [|rewrite Hrun; by eexists _, _].
    destruct Hrun as (w3 & rerr & _ & Hrun). rewrite Hrun. by eexists _, _.
Qed.

(** C1, as the code has it: when [example.com/foo] is loaded with status
    [StatusExternal] in a project whose import path is a plain path,
    [CmdAdd] writes the manifest once, with one entry appended, whose local
    path is the project's import path followed by
    [/internal/example.com/foo]. *)
Theorem CmdAdd_example_foo (w : World) (ctx0 ctx : Context) (pkg : Package) :
  slashToImportPath "example.com/foo" = "example.com/foo" ->
  NewContextWD w = inl ctx0 ->
  LoadPackage w ctx0 ["example.com/foo"] = inl ctx ->
  Context_Package ctx !! "example.com/foo" = Some pkg ->
  Package_Status pkg = StatusExternal ->
  plain_path (Context_RootImportPath ctx) = true ->
  exists (werr : option error) (rest : list Call),
    calls_of (CmdAdd "example.com/foo" w)
    = Call_writeVendorFile (Context_RootDir ctx)
        (mkVendorFile (VendorFile_Tool (Context_VendorFile ctx))
           (VendorFile_Package (Context_VendorFile ctx)
            ++ [mkVendorPackage "example.com/foo"
                  (Context_RootImportPath ctx ++ "/internal/example.com/foo")
                  None None]))
        werr :: rest /\
    forall (root : string) (vf : VendorFile) (e : option error),
      Call_writeVendorFile root vf e ∉ rest.
Proof.
  intros Hslash Hnew Hload Hpkg Hext Hplain.
  destruct (CmdAdd_external w "example.com/foo" ctx0 ctx pkg)
    as (parts & suf & Hsplit & w1 & werr & _ & Hrun); rewrite ?Hslash; try done.
  rewrite Hslash in Hsplit, Hrun.
  change (strings_Split "example.com/foo" internalFolderSlash)
    with ([] ++ ["example.com/foo"])%list in Hsplit.
  apply app_inj_tail in Hsplit as [_ <-].
  cbv zeta in Hrun. rewrite path_Join_plain in Hrun by done.
  destruct werr as [e|].
  { rewrite Hrun. eexists _, _. split; [done|]. intros ??? Hin. not_in_calls Hin. }
  destruct Hrun as (w2 & cerr & _ & Hrun). destruct cerr as [e|].
  { rewrite Hrun. eexists _, _. split; [done|]. intros ??? Hin. not_in_calls Hin. }
  destruct (LoadPackage w2 _ _) as [ctx2|e].
  - destruct Hrun as (w3 & rerr & _ & Hrun). rewrite Hrun. eexists _, _. split; [done|].
    intros ??? Hin. not_in_calls Hin.
  - rewrite Hrun. eexists _, _. split; [done|]. intros ??? Hin. not_in_calls Hin.
Qed.

(** C6: in every run of [CmdAdd] in which [CopyPackage] is called, the
    manifest with the new entry appended has been written before, with
    success; and whether the copy, the second load or the rewriting fails,
    [CmdAdd] returns that error and the calls that follow the copy include
    no write of the manifest: the entry stays. *)
Theorem CmdAdd_no_rollback (w : World) (importPath : string) (src dst : string)
    (cerr : option error) :
  let ip := slashToImportPath importPath in
  Call_CopyPackage src dst cerr ∈ calls_of (CmdAdd importPath w) ->
  exists (ctx : Context) (localImportPath : string) (w1 w2 : World) (rest : list Call),
    let vf := mkVendorFile (VendorFile_Tool (Context_VendorFile ctx))
                (VendorFile_Package (Context_VendorFile ctx)
                 ++ [mkVendorPackage ip localImportPath None None]) in
    let ctx' := Context_append_package ctx (mkVendorPackage ip localImportPath None None) in
    writeVendorFile (Context_RootDir ctx) vf w = (w1, None) /\
    CopyPackage src dst w1 = (w2, cerr) /\
    calls_of (CmdAdd importPath w)
    = Call_writeVendorFile (Context_RootDir ctx) vf None
        :: Call_CopyPackage src dst cerr :: rest /\
    (forall (root : string) (vf' : VendorFile) (e : option error),
       Call_writeVendorFile root vf' e ∉ rest) /\
    match cerr with
    | Some e =>
        rest = [] /\ result_of (CmdAdd importPath w) = Done (Some e) /\
        world_of (CmdAdd importPath w) = w2
    | None =>
        match LoadPackage w2 ctx' [ip] with
        | inr e =>
            rest = [] /\ result_of (CmdAdd importPath w) = Done (Some e) /\
            world_of (CmdAdd importPath w) = w2
        | inl ctx2 =>
            exists (files : list string) (rules : list Rule) (w3 : World)
                   (rerr : option error),
              RewriteFiles files rules w2 = (w3, rerr) /\
              rest = [Call_RewriteFiles files rules rerr] /\
              result_of (CmdAdd importPath w) = Done rerr /\
              world_of (CmdAdd importPath w) = w3
        end
    end.
Proof.
  intros ip Hin.
  destruct (NewContextWD w) as [ctx0|e] eqn:Hnew;
    [|unfold CmdAdd, bind, reading, ret in Hin; rewrite Hnew in Hin; not_in_calls Hin].
  destruct (LoadPackage w ctx0 [ip]) as [ctx|e] eqn:Hload;
    [|unfold CmdAdd, bind, reading, ret in Hin; fold ip in Hin;
      rewrite Hnew, Hload in Hin; not_in_calls Hin].
  destruct (Context_Package ctx !! ip) as [pkg|] eqn:Hpkg;
    [|unfold CmdAdd, bind, reading, panic in Hin; fold ip in Hin;
      rewrite Hnew, Hload, Hpkg in Hin; not_in_calls Hin].
  destruct (decide (Package_Status pkg = StatusExternal)) as [Hext|Hext].
  - destruct (CmdAdd_external w importPath ctx0 ctx pkg Hnew Hload Hpkg Hext)
      as (parts & suf & _ & w1 & werr & Hwrite & Hrun). cbv zeta in Hrun, Hwrite.
    fold ip in Hrun, Hwrite.
    destruct werr as [e|]; [rewrite Hrun in Hin; not_in_calls Hin|].
    destruct Hrun as (w2 & cerr' & Hcopy & Hrun).
    exists ctx, (path_Join [Context_RootImportPath ctx; internalFolder; suf]), w1, w2.
    destruct cerr' as [e|].
    { rewrite Hrun in Hin |- *. first_in_calls Hin.
      exists []. cbv zeta. repeat (split; [done|]). split; [|done].
      intros ??? Hq. not_in_calls Hq. }
    destruct (LoadPackage w2 _ _) as [ctx2|e] eqn:Hreload.
    + destruct Hrun as (w3 & rerr & Hrewrite & Hrun). rewrite Hrun in Hin |- *.
      first_in_calls Hin.
      eexists [_]. cbv zeta. repeat (split; [done|]). split.
      { intros ??? Hq. not_in_calls Hq. }
      rewrite Hreload. eexists _, _, _, _. done.
    + rewrite Hrun in Hin |- *. first_in_calls Hin.
      exists []. cbv zeta. repeat (split; [done|]). split.
      { intros ??? Hq. not_in_calls Hq. }
      by rewrite Hreload.
  - rewrite (CmdAdd_other_status w importPath ctx0 ctx pkg Hnew Hload Hpkg Hext) in Hin.
    not_in_calls Hin.
Qed.

End CmdAdd_properties.

(** ** CmdInit *)

Section CmdInit_properties.
Context {World : Type} {env : Env World}.

(** C5, as the code has it: when the working directory cannot be had,
    [CmdInit] returns that error.  In a working directory [wd], it returns
    [ErrVendorFileExists], having written nothing, exactly when the [stat]
    of [wd/internal/vendor.json] reports anything but that the file does
    not exist -- so when the file is there, and also when the [stat] fails
    in another way.  Otherwise it makes the directory [wd/internal] and,
    when that succeeds, writes a manifest with the tool's name and no
    package, and returns what the write returns; the error of [MkdirAll]
    is returned as it is. *)
Theorem CmdInit_cases (w : World) :
  match os_Getwd w with
  | inr e => CmdInit w = (w, [], Done (Some e))
  | inl wd =>
      let stat := os_Stat w (filepath_Join [wd; internalVendor]) in
      let mkdir := Call_MkdirAll (filepath_Join [wd; internalFolder]) 511 in
      (os_IsNotExist stat = false <->
       CmdInit w = (w, [], Done (Some ErrVendorFileExists))) /\
      (stat = None -> CmdInit w = (w, [], Done (Some ErrVendorFileExists))) /\
      (os_IsNotExist stat = true ->
       exists (w1 : World) (merr : option error),
         os_MkdirAll (filepath_Join [wd; internalFolder]) 511 w = (w1, merr) /\
         match merr with
         | Some e => CmdInit w = (w1, [mkdir merr], Done (Some e))
         | None =>
             exists (w2 : World) (werr : option error),
               writeVendorFile wd (mkVendorFile toolName []) w1 = (w2, werr) /\
               CmdInit w
               = (w2, [mkdir None;
                       Call_writeVendorFile wd (mkVendorFile toolName []) werr],
                  Done werr)
         end)
  end.
Proof.
  destruct (os_Getwd w) as [wd|e] eqn:Hwd;
    [|by unfold CmdInit, bind, reading, ret; rewrite Hwd].
  intros stat mkdir.
  assert (Hexists : os_IsNotExist stat = false ->
                    CmdInit w = (w, [], Done (Some ErrVendorFileExists))).
  { intros Hstat. unfold CmdInit, bind, reading, ret. rewrite Hwd. fold stat.
    by rewrite Hstat. }
  assert (Hcreate : os_IsNotExist stat = true ->
    exists (w1 : World) (merr : option error),
      os_MkdirAll (filepath_Join [wd; internalFolder]) 511 w = (w1, merr) /\
      match merr with
      | Some e => CmdInit w = (w1, [mkdir merr], Done (Some e))
      | None =>
          exists (w2 : World) (werr : option error),
            writeVendorFile wd (mkVendorFile toolName []) w1 = (w2, werr) /\
            CmdInit w
            = (w2, [mkdir None; Call_writeVendorFile wd (mkVendorFile toolName []) werr],
               Done werr)
      end).
  { intros Hstat.
    unfold CmdInit, bind, reading, ret, do_MkdirAll, do_writeVendorFile, writing.
    rewrite Hwd. fold stat. rewrite Hstat. simpl.
    destruct (os_MkdirAll _ 511 w) as [w1 [e|]]; eexists _, _; (split; [done|]); [done|].
    destruct (writeVendorFile wd _ w1) as [w2 [e|]]; eexists _, _; (split; [done|]); done. }
  split; [|split; [|done]].
  - split; [done|]. intros Hrun.
    destruct (os_IsNotExist stat) eqn:Hstat; [|done].
    destruct (Hcreate eq_refl) as (w1 & merr & _ & Hrun').
    destruct merr as [e|]; [congruence|].
    destruct Hrun' as (w2 & werr & _ & Hrun'). congruence.
  - intros Hstat. apply Hexists. by rewrite Hstat.
Qed.

End CmdInit_properties.


(** ** Runs in the example workspace *)

(** Adding the project itself, and a package of the standard library. *)
Lemma CmdAdd_not_external_witness :
  CmdAdd "proj" Workspace.project = (Workspace.project, [], Done (Some ErrLocalPackage)) /\
  CmdAdd "fmt" Workspace.project = (Workspace.project, [], Done (Some (ErrNotInGOPATH "fmt"))).
Proof.
  split.
  - destruct (CmdAdd_not_external Workspace.project "proj"
                Workspace.project_context0 Workspace.project_context
                (mkPackage "/go/src/proj" "proj" StatusLocal))
      as (e & Hrun & _ & Hlocal & _); [reflexivity|reflexivity|reflexivity|discriminate|].
    rewrite Hrun, Hlocal; reflexivity.
  - destruct (CmdAdd_not_external Workspace.project "fmt"
                Workspace.project_context0 Workspace.project_context
                (mkPackage "/usr/lib/go/src/fmt" "fmt" StatusStd))
      as (e & Hrun & _ & _ & Hother); [reflexivity|reflexivity|reflexivity|discriminate|].
    rewrite Hrun, Hother; [reflexivity|discriminate|discriminate].
Defined.

(** A loader that leaves out a focus path it does not find makes [CmdAdd]
    panic; one that installs it does not. *)
Lemma CmdAdd_nil_package_witness :
  CmdAdd "example.com/bar" Workspace.project_lazy = (Workspace.project_lazy, [], Panic) /\
  result_of (CmdAdd "example.com/bar" Workspace.project) <> Panic.
Proof.
  split.
  - apply (CmdAdd_nil_package Workspace.project_lazy "example.com/bar")
      with (ctx0 := Workspace.project_context0) (ctx := Workspace.project_context);
      reflexivity.
  - apply (CmdAdd_nil_package Workspace.project "example.com/bar").
    intros ctx0 ctx Hnew Hload. injection Hnew as <-. injection Hload as <-.
    exists (mkPackage "" "example.com/bar" StatusMissing). reflexivity.
Defined.

(** The second example of the comment in [CmdAdd]:
    [yours/internal/yourpkg] becomes [proj/internal/yourpkg]. *)
Lemma CmdAdd_local_import_path_witness :
  exists (werr : option error) (rest : list Call),
    calls_of (CmdAdd "yours/internal/yourpkg" Workspace.project)
    = Call_writeVendorFile "/go/src/proj"
        (mkVendorFile toolName
           [mkVendorPackage "yours/internal/yourpkg" "proj/internal/yourpkg" None None])
        werr :: rest.
Proof.
  destruct (CmdAdd_local_import_path Workspace.project "yours/internal/yourpkg"
              Workspace.project_context0 Workspace.project_context Workspace.yourpkg)
    as (parts & suf & _ & _ & _ & _ & Hunique & werr & rest & Hcalls);
    [reflexivity..|].
  rewrite <- (Hunique ["yours"] "yourpkg") in Hcalls;
    [|reflexivity|repeat constructor|reflexivity].
  exists werr, rest. exact Hcalls.
Defined.

(** Adding [example.com/foo] to the example project. *)
Lemma CmdAdd_example_foo_witness :
  exists (werr : option error) (rest : list Call),
    calls_of (CmdAdd "example.com/foo" Workspace.project)
    = Call_writeVendorFile "/go/src/proj"
        (mkVendorFile toolName
           [mkVendorPackage "example.com/foo" "proj/internal/example.com/foo" None None])
        werr :: rest /\
    forall (root : string) (vf : VendorFile) (e : option error),
      Call_writeVendorFile root vf e ∉ rest.
Proof.
  apply (CmdAdd_example_foo Workspace.project
           Workspace.project_context0 Workspace.project_context Workspace.foo);
    reflexivity.
Defined.

(** When the copy fails, the error is returned, nothing has been copied, and
    the manifest on disk has the entry. *)
Lemma CmdAdd_no_rollback_witness :
  let run := CmdAdd "example.com/foo" Workspace.project_copy_fails in
  result_of run = Done (Some (errors_New "no space left on device")) /\
  Workspace.manifest (world_of run)
  = Some (mkVendorFile toolName
            [mkVendorPackage "example.com/foo" "proj/internal/example.com/foo" None None]) /\
  Workspace.copied (world_of run) = [].
Proof.
  intros run.
  destruct (CmdAdd_no_rollback Workspace.project_copy_fails "example.com/foo"
              "/go/src/example.com/foo" "/go/src/proj/internal/example.com/foo"
              (Some (errors_New "no space left on device")))
    as (ctx & localImportPath & w1 & w2 & rest & _ & _ & _ & _ & _ & Hresult & _).
  - right. left.
  - split; [exact Hresult|]. split; reflexivity.
Defined.

(** [CmdInit] in the example project, which has a manifest, and in a fresh
    directory. *)
Lemma CmdInit_cases_witness :
  CmdInit Workspace.project = (Workspace.project, [], Done (Some ErrVendorFileExists)) /\
  exists w2 : Workspace.t,
    CmdInit Workspace.fresh
    = (w2, [Call_MkdirAll "/go/src/new/internal" 511 None;
            Call_writeVendorFile "/go/src/new" (mkVendorFile toolName []) None],
       Done None) /\
    Workspace.manifest w2 = Some (mkVendorFile toolName []).
Proof.
  split.
  - pose proof (CmdInit_cases Workspace.project) as Hcases.
    change (os_Getwd Workspace.project) with (@inl string error "/go/src/proj") in Hcases.
    cbv iota beta zeta in Hcases. destruct Hcases as (_ & Hexists & _).
    apply Hexists. reflexivity.
  - pose proof (CmdInit_cases Workspace.fresh) as Hcases.
    change (os_Getwd Workspace.fresh) with (@inl string error "/go/src/new") in Hcases.
    cbv iota beta zeta in Hcases. destruct Hcases as (_ & _ & Hcreate).
    destruct Hcreate as (w1 & merr & Hmkdir & Hrun); [reflexivity|].
    injection Hmkdir as <- <-.
    destruct Hrun as (w2 & werr & Hwrite & Hrun). injection Hwrite as <- <-.
    eexists. split; [exact Hrun|reflexivity].
Defined.

(** ** Where the code differs from the specification *)


(** C1 as stated does not hold: in the example project [example.com/foo]
    is external, and the entry that [CmdAdd] writes has the local path
    [proj/internal/example.com/foo], not [proj/internal/foo]. *)
Lemma CmdAdd_foo_not_last_component :
  Package_Status <$> (Workspace.packages Workspace.project !! "example.com/foo")
  = Some StatusExternal /\
  (exists rest : list Call,
     calls_of (CmdAdd "example.com/foo" Workspace.project)
     = Call_writeVendorFile "/go/src/proj"
         (mkVendorFile toolName
            [mkVendorPackage "example.com/foo" "proj/internal/example.com/foo" None None])
         None :: rest) /\
  "proj/internal/example.com/foo" <> Workspace.rootImportPath Workspace.project ++ "/internal/foo".
Proof.
  split; [reflexivity|]. split; [eexists; reflexivity|discriminate].
Qed.

(** C2 as stated does not hold: [example.com/foo] has no [/internal/] in
    it and its final component is [foo], yet the local path is made of the
    whole import path. *)
Lemma CmdAdd_no_internal_keeps_whole_path :
  strings_Index "example.com/foo" internalFolderSlash = -1 /\
  strings_Split "example.com/foo" "/" = ["example.com"; "foo"] /\
  Package_Status <$> (Workspace.packages Workspace.project !! "example.com/foo")
  = Some StatusExternal /\
  (exists rest : list Call,
     calls_of (CmdAdd "example.com/foo" Workspace.project)
     = Call_writeVendorFile "/go/src/proj"
         (mkVendorFile toolName
            [mkVendorPackage "example.com/foo"
               (path_Join ["proj"; internalFolder; "example.com/foo"]) None None])
         None :: rest) /\
  path_Join ["proj"; internalFolder; "example.com/foo"]
  <> path_Join ["proj"; internalFolder; "foo"].
Proof.
  split; [reflexivity|]. split; [reflexivity|]. split; [reflexivity|].
  split; [eexists; reflexivity|discriminate].
Qed.

(** C5 as stated does not hold: in a directory whose [internal] may not be
    searched there is no manifest, the [stat] fails with [EACCES], and
    [CmdInit] returns [ErrVendorFileExists]. *)
Lemma CmdInit_exists_error_without_manifest :
  ("/go/src/new/internal/vendor.json" ∉ Workspace.paths Workspace.fresh_denied) /\
  os_Stat Workspace.fresh_denied "/go/src/new/internal/vendor.json"
  = Some (os_PathError "stat" "/go/src/new/internal/vendor.json"
            (syscall_Errno syscall_EACCES)) /\
  CmdInit Workspace.fresh_denied
  = (Workspace.fresh_denied, [], Done (Some ErrVendorFileExists)) /\
  ~ (result_of (CmdInit Workspace.fresh_denied) = Done (Some ErrVendorFileExists) <->
     "/go/src/new/internal/vendor.json" ∈ Workspace.paths Workspace.fresh_denied).
Proof.
  assert (Habsent : "/go/src/new/internal/vendor.json"
                    ∉ Workspace.paths Workspace.fresh_denied).
  { intros Hin. repeat (apply elem_of_cons in Hin as [Hin|Hin]; [discriminate Hin|]).
    by apply elem_of_nil in Hin. }
  split; [done|]. split; [reflexivity|]. split; [reflexivity|].
  intros [Hexists _]. apply Habsent, Hexists. reflexivity.
Qed.

(** * Further properties of command.go *)

(** ** The methods of ListItemSort *)

Lemma index_Some_nat {A : Type} (l : list A) (i : Z) (x : A) :
  index l i = Some x <-> 0 <= i /\ l !! Z.to_nat i = Some x.
Proof.
  unfold index. split.
  - destruct (Z.leb_spec 0 i); simpl; [|done].
    destruct (Z.ltb_spec i (Z.of_nat (length l))); [|done]. auto.
  - intros [Hi Hx]. pose proof (lookup_lt_Some _ _ _ Hx).
    destruct (Z.leb_spec 0 i); [|lia].
    destruct (Z.ltb_spec i (Z.of_nat (length l))); [done|lia].
Qed.

Lemma index_is_Some {A : Type} (l : list A) (i : Z) :
  is_Some (index l i) <-> 0 <= i < Z.of_nat (length l).
Proof.
  split.
  - intros [x Hx]. apply index_Some_nat in Hx as [Hi Hx].
    apply lookup_lt_Some in Hx. lia.
  - intros [Hlo Hhi]. destruct (lookup_lt_is_Some_2 l (Z.to_nat i)) as [x Hx]; [lia|].
    exists x. by apply index_Some_nat.
Qed.

Lemma insert_head_Permutation {A : Type} (l : list A) (j : nat) (x b : A) :
  l !! j = Some b -> b :: <[j := x]> l ≡ₚ x :: l.
Proof.
  revert j. induction l as [|y l IH]; intros [|j]; simpl; try done.
  - intros [= ->]. apply Permutation_swap.
  - intros Hb. etrans; [apply Permutation_swap|]. rewrite IH by done.
    apply Permutation_swap.
Qed.

Lemma insert_insert_Permutation {A : Type} (l : list A) (i j : nat) (a b : A) :
  l !! i = Some a -> l !! j = Some b -> <[j := a]> (<[i := b]> l) ≡ₚ l.
Proof.
  revert i j. induction l as [|x l IH]; intros [|i] [|j]; simpl; try done.
  - by intros [= ->] [= ->].
  - intros [= ->] Hb. by apply insert_head_Permutation.
  - intros Ha [= ->]. by apply insert_head_Permutation.
  - intros Ha Hb. by rewrite IH.
Qed.

(** X1: [Swap(i, j)] at two valid indices returns the list with the items
    at [i] and [j] exchanged and every other item in its place: the same
    length and the same items. *)
Theorem ListItemSort_Swap_exchanges (li : ListItemSort) (i j : Z) (a b : ListItem) :
  index li i = Some a ->
  index li j = Some b ->
  exists li' : ListItemSort,
    Swap li i j = Some li' /\
    index li' i = Some b /\
    index li' j = Some a /\
    (forall k : Z, k <> i -> k <> j -> index li' k = index li k) /\
    Len li' = Len li /\
    li' ≡ₚ li.
Proof.
  unfold ListItemSort in *. intros Ha Hb. simpl.
  unfold ListItemSort_Swap, ListItemSort_Len, ListItemSort in *. rewrite Ha, Hb.
  eexists. split; [done|].
  apply index_Some_nat in Ha as [Hi Ha]. apply index_Some_nat in Hb as [Hj Hb].
  pose proof (lookup_lt_Some _ _ _ Ha) as Hilt. pose proof (lookup_lt_Some _ _ _ Hb) as Hjlt.
  split; [|split; [|split; [|split]]].
  - apply index_Some_nat. split; [done|].
    destruct (decide (Z.to_nat i = Z.to_nat j)) as [Heq|Hne].
    + rewrite Heq, list_lookup_insert_eq by (by rewrite length_insert).
      congruence.
    + rewrite list_lookup_insert_ne by done.
      by rewrite list_lookup_insert_eq.
  - apply index_Some_nat. split; [done|].
    by rewrite list_lookup_insert_eq by (by rewrite length_insert).
  - intros k Hki Hkj. unfold index. rewrite !length_insert.
    destruct ((0 <=? k) && (k <? Z.of_nat (length li))) eqn:Hk; [|done].
    apply andb_true_iff in Hk as [Hk1 Hk2]. apply Z.leb_le in Hk1.
    rewrite !list_lookup_insert_ne by lia. done.
  - by rewrite !length_insert.
  - by apply insert_insert_Permutation.
Qed.

(** Exchanging the first and the last of three items. *)
Lemma ListItemSort_Swap_exchanges_witness :
  let li : ListItemSort :=
    [mkListItem StatusStd "fmt"; mkListItem StatusLocal "proj";
     mkListItem StatusExternal "example.com/foo"] in
  exists li' : ListItemSort,
    Swap li 0 2 = Some li' /\
    index li' 0 = Some (mkListItem StatusExternal "example.com/foo") /\
    index li' 2 = Some (mkListItem StatusStd "fmt") /\
    li' ≡ₚ li.
Proof.
  intros li.
  destruct (ListItemSort_Swap_exchanges li 0 2
              (mkListItem StatusStd "fmt") (mkListItem StatusExternal "example.com/foo")
              eq_refl eq_refl) as (li' & Hswap & Hi & Hj & _ & _ & Hperm).
  exists li'. done.
Defined.

(** X2: [Len] is not negative, and [Less(i, j)] and [Swap(i, j)] return
    exactly when both indices are at least 0 and below [Len]; with any
    other index they panic. *)
Theorem ListItemSort_index_bounds (li : ListItemSort) (i j : Z) :
  0 <= Len li /\
  (is_Some (Less li i j) <-> (0 <= i < Len li /\ 0 <= j < Len li)) /\
  (is_Some (Swap li i j) <-> (0 <= i < Len li /\ 0 <= j < Len li)).
Proof.
  simpl. unfold ListItemSort_Len, ListItemSort_Less, ListItemSort_Swap.
  rewrite <- !index_is_Some. split; [lia|]. split.
  - destruct (index li i), (index li j); split; try done;
      intros [[? ?] [? ?]]; done.
  - destruct (index li i), (index li j); split; try done;
      intros [[? ?] [? ?]]; done.
Qed.

(** X3: a [Swap(i, j)] that returns is undone by the same [Swap], is the
    same as [Swap(j, i)], and turns [Less(i, j)] into what [Less(j, i)] was
    and back. *)
Theorem ListItemSort_Swap_involution (li li' : ListItemSort) (i j : Z) :
  Swap li i j = Some li' ->
  Swap li' i j = Some li /\
  Swap li j i = Some li' /\
  Less li' i j = Less li j i /\
  Less li' j i = Less li i j.
Proof.
  simpl. unfold ListItemSort_Swap, ListItemSort_Less, ListItemSort in *.
  destruct (index li j) as [b|] eqn:Hb; [|done].
  destruct (index li i) as [a|] eqn:Ha; [|done]. intros [= <-].
  assert (Hi' : index (<[Z.to_nat j:=a]> (<[Z.to_nat i:=b]> li)) i = Some b).
  { apply index_Some_nat in Ha as [Hi Ha]. apply index_Some_nat in Hb as [Hj Hb].
    pose proof (lookup_lt_Some _ _ _ Ha). pose proof (lookup_lt_Some _ _ _ Hb).
    apply index_Some_nat. split; [done|].
    destruct (decide (Z.to_nat i = Z.to_nat j)) as [Heq|Hne].
    - rewrite Heq in *. rewrite list_lookup_insert_eq by (by rewrite length_insert).
      congruence.
    - rewrite list_lookup_insert_ne by done. by rewrite list_lookup_insert_eq. }
  assert (Hj' : index (<[Z.to_nat j:=a]> (<[Z.to_nat i:=b]> li)) j = Some a).
  { apply index_Some_nat in Ha as [Hi Ha]. apply index_Some_nat in Hb as [Hj Hb].
    pose proof (lookup_lt_Some _ _ _ Ha). pose proof (lookup_lt_Some _ _ _ Hb).
    apply index_Some_nat. split; [done|].
    by rewrite list_lookup_insert_eq by (by rewrite length_insert). }
  rewrite Hi', Hj'. split; [|split; [|done]].
  - apply index_Some_nat in Ha as [Hi Ha]. apply index_Some_nat in Hb as [Hj Hb].
    pose proof (lookup_lt_Some _ _ _ Ha). pose proof (lookup_lt_Some _ _ _ Hb).
    f_equal. apply list_eq. intros k.
    destruct (decide (k = Z.to_nat j)) as [->|Hkj].
    + rewrite list_lookup_insert_eq by (by rewrite !length_insert). done.
    + rewrite list_lookup_insert_ne by done.
      destruct (decide (k = Z.to_nat i)) as [->|Hki].
      * rewrite list_lookup_insert_eq by (by rewrite !length_insert). done.
      * by rewrite !list_lookup_insert_ne by done.
  - apply index_Some_nat in Ha as [Hi Ha]. apply index_Some_nat in Hb as [Hj Hb].
    pose proof (lookup_lt_Some _ _ _ Ha). pose proof (lookup_lt_Some _ _ _ Hb).
    f_equal. destruct (decide (Z.to_nat i = Z.to_nat j)) as [Heq|Hne].
    + rewrite Heq in *. congruence.
    + apply list_eq. intros k.
      destruct (decide (k = Z.to_nat i)) as [->|Hki].
      * rewrite list_lookup_insert_eq by (by rewrite length_insert).
        rewrite list_lookup_insert_ne by done. by rewrite list_lookup_insert_eq.
      * rewrite list_lookup_insert_ne by done.
        destruct (decide (k = Z.to_nat j)) as [->|Hkj].
        -- rewrite !list_lookup_insert_eq by (by rewrite ?length_insert). done.
        -- by rewrite !list_lookup_insert_ne by done.
Qed.

(** Two items out of order are in order after the exchange. *)
Lemma ListItemSort_Swap_involution_witness :
  let li : ListItemSort :=
    [mkListItem StatusStd "fmt"; mkListItem StatusExternal "example.com/foo"] in
  let li' : ListItemSort :=
    [mkListItem StatusExternal "example.com/foo"; mkListItem StatusStd "fmt"] in
  Swap li' 0 1 = Some li /\ Less li' 0 1 = Some true.
Proof.
  intros li li'.
  destruct (ListItemSort_Swap_involution li li' 0 1 eq_refl) as (Hback & _ & Hless & _).
  split; [exact Hback|]. rewrite Hless. reflexivity.
Defined.

(** Indices in and out of the range of a list of two items. *)
Lemma ListItemSort_index_bounds_witness :
  let li : ListItemSort :=
    [mkListItem StatusStd "fmt"; mkListItem StatusExternal "example.com/foo"] in
  is_Some (Less li 0 1) /\ ~ is_Some (Less li 0 2) /\ ~ is_Some (Swap li (-1) 0).
Proof.
  intros li. split; [|split].
  - apply (ListItemSort_index_bounds li 0 1). simpl. unfold ListItemSort_Len. simpl. lia.
  - intros H. apply (ListItemSort_index_bounds li 0 2) in H.
    simpl in H. unfold ListItemSort_Len in H. simpl in H. lia.
  - intros H. apply (ListItemSort_index_bounds li (-1) 0) in H. lia.
Defined.

(** ** Printing *)

Lemma defined_status_cases (ls : ListStatus) :
  defined_status ls ->
  ls = StatusUnknown \/ ls = StatusMissing \/ ls = StatusStd \/ ls = StatusLocal \/
  ls = StatusExternal \/ ls = StatusInternal \/ ls = StatusUnused.
Proof.
  unfold defined_status, StatusUnknown, StatusMissing, StatusStd, StatusLocal,
    StatusExternal, StatusInternal, StatusUnused. lia.
Qed.

(** X4: [ListStatus.String] returns the empty string exactly for the
    values that are no defined status; for the seven defined ones it
    returns one character, a different one for each. *)
Theorem ListStatus_String_letters (a b : ListStatus) :
  (ListStatus_String a = "" <-> ~ defined_status a) /\
  (defined_status a -> String.length (ListStatus_String a) = 1%nat) /\
  (defined_status a -> defined_status b ->
   ListStatus_String a = ListStatus_String b -> a = b).
Proof.
  split; [|split].
  - split.
    + intros Hs Hd. by destruct (defined_status_cases a Hd)
        as [->|[->|[->|[->|[->|[->| ->]]]]]].
    + intros Hd. unfold ListStatus_String.
      unfold defined_status, StatusUnknown, StatusMissing, StatusStd, StatusLocal,
        StatusExternal, StatusInternal, StatusUnused in *.
      repeat match goal with
             | |- context [a =? ?k] => destruct (Z.eqb_spec a k); [lia|]
             end.
      reflexivity.
  - intros Hd. by destruct (defined_status_cases a Hd)
      as [->|[->|[->|[->|[->|[->| ->]]]]]].
  - intros Ha Hb.
    destruct (defined_status_cases a Ha) as [->|[->|[->|[->|[->|[->| ->]]]]]];
      destruct (defined_status_cases b Hb) as [->|[->|[->|[->|[->|[->| ->]]]]]];
      done.
Qed.

(** The byte 200 and [StatusExternal]. *)
Lemma ListStatus_String_letters_witness :
  ListStatus_String 200 = "" /\ String.length (ListStatus_String StatusExternal) = 1%nat.
Proof.
  destruct (ListStatus_String_letters 200 StatusExternal) as ((_ & Hempty) & _).
  destruct (ListStatus_String_letters StatusExternal 200) as (_ & Hlen & _).
  split.
  - apply Hempty. unfold defined_status, StatusUnused. lia.
  - apply Hlen. unfold defined_status, StatusUnknown, StatusExternal, StatusUnused. lia.
Defined.

(** X5: two items with defined statuses that print the same with
    [ListItem.String] are the same item: the line gives back the status
    and the path. *)
Theorem ListItem_String_injective (a b : ListItem) :
  defined_status (ListItem_Status a) ->
  defined_status (ListItem_Status b) ->
  ListItem_String a = ListItem_String b ->
  a = b.
Proof.
  destruct a as [sa pa], b as [sb pb]. unfold ListItem_String. simpl. intros Ha Hb.
  destruct (defined_status_cases sa Ha) as [->|[->|[->|[->|[->|[->| ->]]]]]];
    destruct (defined_status_cases sb Hb) as [->|[->|[->|[->|[->|[->| ->]]]]]];
    simpl; rewrite !append_cons, !append_nil_l; intros [= <-]; done.
Qed.

(** Two ways of writing one item. *)
Lemma ListItem_String_injective_witness :
  mkListItem StatusExternal ("example.com/" ++ "foo")
  = mkListItem StatusExternal "example.com/foo".
Proof.
  apply ListItem_String_injective.
  - unfold defined_status, StatusUnknown, StatusExternal, StatusUnused. simpl. lia.
  - unfold defined_status, StatusUnknown, StatusExternal, StatusUnused. simpl. lia.
  - reflexivity.
Defined.

(** ** More on CmdList *)



Section CmdList_properties.
Context {World : Type} {env : Env World}.



End CmdList_properties.





Section CmdList_keys.
Context {World : Type} {env : Env World}.


End CmdList_keys.


(** ** More on CmdAdd *)

Section CmdAdd_more.
Context {World : Type} {env : Env World}.

(** The runs of [CmdAdd], by how far they get. *)
Lemma CmdAdd_runs (w : World) (importPath : string) :
  let ip := slashToImportPath importPath in
  (exists e : error, NewContextWD w = inr e /\ CmdAdd importPath w = (w, [], Done (Some e))) \/
  (exists (ctx0 : Context) (e : error),
     NewContextWD w = inl ctx0 /\ LoadPackage w ctx0 [ip] = inr e /\
     CmdAdd importPath w = (w, [], Done (Some e))) \/
  (exists ctx0 ctx : Context,
     NewContextWD w = inl ctx0 /\ LoadPackage w ctx0 [ip] = inl ctx /\
     Context_Package ctx !! ip = None /\ CmdAdd importPath w = (w, [], Panic)) \/
  (exists (ctx0 ctx : Context) (pkg : Package),
     NewContextWD w = inl ctx0 /\ LoadPackage w ctx0 [ip] = inl ctx /\
     Context_Package ctx !! ip = Some pkg /\ Package_Status pkg <> StatusExternal /\
     CmdAdd importPath w = (w, [], Done (Some (status_error (Package_Status pkg) ip)))) \/
  (exists (ctx0 ctx : Context) (pkg : Package) (localImportPath : string),
     NewContextWD w = inl ctx0 /\ LoadPackage w ctx0 [ip] = inl ctx /\
     Context_Package ctx !! ip = Some pkg /\ Package_Status pkg = StatusExternal /\
     localImportPath_of ctx ip = Some localImportPath /\
     let ctx' := Context_append_package ctx (mkVendorPackage ip localImportPath None None) in
     let dst := filepath_Join [Context_RootGopath ctx; slashToFilepath localImportPath] in
     let cw := Call_writeVendorFile (Context_RootDir ctx) (Context_VendorFile ctx') in
     let cc := Call_CopyPackage (Package_Dir pkg) dst in
     exists (w1 : World) (werr : option error),
       writeVendorFile (Context_RootDir ctx) (Context_VendorFile ctx') w = (w1, werr) /\
       match werr with
       | Some e => CmdAdd importPath w = (w1, [cw werr], Done (Some e))
       | None =>
           exists (w2 : World) (cerr : option error),
             CopyPackage (Package_Dir pkg) dst w1 = (w2, cerr) /\
             match cerr with
             | Some e => CmdAdd importPath w = (w2, [cw None; cc cerr], Done (Some e))
             | None =>
                 match LoadPackage w2 ctx' [ip] with
                 | inr e => CmdAdd importPath w = (w2, [cw None; cc None], Done (Some e))
                 | inl ctx2 =>
                     let files := default [] (Context_fileImports ctx2 !! ip) in
                     let rules := [mkRule ip localImportPath] in
                     exists (w3 : World) (rerr : option error),
                       RewriteFiles files rules w2 = (w3, rerr) /\
                       CmdAdd importPath w
                       = (w3, [cw None; cc None; Call_RewriteFiles files rules rerr],
                          Done rerr)
                 end
             end
       end).
Proof.
  intros ip.
  destruct (NewContextWD w) as [ctx0|e] eqn:Hnew.
  2:{ left. exists e. split; [done|]. unfold CmdAdd, bind, reading, ret. by rewrite Hnew. }
  right. destruct (LoadPackage w ctx0 [ip]) as [ctx|e] eqn:Hload.
  2:{ left. exists ctx0, e. do 2 (split; [done|]).
      unfold CmdAdd, bind, reading, ret. fold ip. by rewrite Hnew, Hload. }
  right. destruct (Context_Package ctx !! ip) as [pkg|] eqn:Hpkg.
  2:{ left. exists ctx0, ctx. do 3 (split; [done|]).
      unfold CmdAdd, bind, reading, panic. fold ip. by rewrite Hnew, Hload, Hpkg. }
  right. destruct (decide (Package_Status pkg = StatusExternal)) as [Hext|Hext].
  - right. destruct (CmdAdd_external w importPath ctx0 ctx pkg Hnew Hload Hpkg Hext)
      as (parts & suf & Hsplit & Hrun). fold ip in Hsplit, Hrun.
    exists ctx0, ctx, pkg, (path_Join [Context_RootImportPath ctx; internalFolder; suf]).
    do 4 (split; [done|]). split; [|exact Hrun].
    unfold localImportPath_of. cbv zeta. by rewrite Hsplit, index_last.
  - left. exists ctx0, ctx, pkg. do 4 (split; [done|]).
    by apply CmdAdd_other_status with ctx0 ctx.
Qed.


(** The leaves of an external run of [CmdAdd], from the statement [Hrun] of
    [CmdAdd_runs] about it. *)
Ltac external_run Hrun :=
  let w1 := fresh "w1" in let werr := fresh "werr" in let Hwrite := fresh "Hwrite" in
  let w2 := fresh "w2" in let cerr := fresh "cerr" in let Hcopy := fresh "Hcopy" in
  let ctx2 := fresh "ctx2" in let Hreload := fresh "Hreload" in
  let w3 := fresh "w3" in let rerr := fresh "rerr" in let Hrewrite := fresh "Hrewrite" in
  let e := fresh "e" in
  cbv zeta in Hrun;
  destruct Hrun as (w1 & werr & Hwrite & Hrun);
  destruct werr as [e|];
  [|destruct Hrun as (w2 & cerr & Hcopy & Hrun);
    destruct cerr as [e|];
    [|match type of Hrun with
      | match ?load with _ => _ end =>
          destruct load as [ctx2|e] eqn:Hreload;
          [destruct Hrun as (w3 & rerr & Hrewrite & Hrun)|]
      end]].

(** The five kinds of runs of [CmdAdd], with the names of [CmdAdd_runs]. *)
Ltac cases_of_run w importPath :=
  let Hruns := fresh "Hruns" in
  pose proof (CmdAdd_runs w importPath) as Hruns; cbv zeta in Hruns;
  destruct Hruns
    as [(e & Hnew & Hrun)|[(ctx0 & e & Hnew & Hload & Hrun)|
        [(ctx0 & ctx & Hnew & Hload & Hpkg & Hrun)|
         [(ctx0 & ctx & pkg & Hnew & Hload & Hpkg & Hext & Hrun)|
          (ctx0 & ctx & pkg & localImportPath & Hnew & Hload & Hpkg & Hext & Hlocal
           & Hrun)]]]].

(** X10: [CmdAdd] makes a writing call exactly when the context loads and
    the package of the import path has status [StatusExternal]; in every
    other run nothing is written. *)
Theorem CmdAdd_writes_iff_external (w : World) (importPath : string) :
  let ip := slashToImportPath importPath in
  calls_of (CmdAdd importPath w) <> [] <->
  exists (ctx0 ctx : Context) (pkg : Package),
    NewContextWD w = inl ctx0 /\ LoadPackage w ctx0 [ip] = inl ctx /\
    Context_Package ctx !! ip = Some pkg /\ Package_Status pkg = StatusExternal.
Proof.
  intros ip. subst ip.
  cases_of_run w importPath.
  - rewrite Hrun. split; [done|]. intros (? & ? & ? & ? & _). congruence.
  - rewrite Hrun. split; [done|]. intros (? & ? & ? & ? & ? & _). congruence.
  - rewrite Hrun. split; [done|]. intros (? & ? & ? & ? & ? & ? & _). congruence.
  - rewrite Hrun. split; [done|]. intros (? & ? & ? & ? & ? & ? & ?). congruence.
  - split; [intros _; by exists ctx0, ctx, pkg|]. intros _.
    external_run Hrun; by rewrite Hrun.
Qed.

(** X11: the writing calls of a run of [CmdAdd] are a beginning of: the
    manifest, the copy, the rewriting, each made once and only after the
    one before returned [nil].  A failing step's error is returned, a run
    that stops after a successful copy returns an error, and [nil] is
    returned only when all three were made and the rewriting returned
    [nil]. *)
Theorem CmdAdd_call_sequence (w : World) (importPath : string) :
  let run := CmdAdd importPath w in
  (calls_of run = [] /\ result_of run <> Done None) \/
  (exists (root : string) (vf : VendorFile) (e : error),
     calls_of run = [Call_writeVendorFile root vf (Some e)] /\
     result_of run = Done (Some e)) \/
  (exists (root : string) (vf : VendorFile) (src dst : string) (e : error),
     calls_of run = [Call_writeVendorFile root vf None; Call_CopyPackage src dst (Some e)] /\
     result_of run = Done (Some e)) \/
  (exists (root : string) (vf : VendorFile) (src dst : string) (e : error),
     calls_of run = [Call_writeVendorFile root vf None; Call_CopyPackage src dst None] /\
     result_of run = Done (Some e)) \/
  (exists (root : string) (vf : VendorFile) (src dst : string) (files : list string)
          (rules : list Rule) (rerr : option error),
     calls_of run = [Call_writeVendorFile root vf None; Call_CopyPackage src dst None;
                     Call_RewriteFiles files rules rerr] /\
     result_of run = Done rerr).
Proof.
  intros run. subst run.
  cases_of_run w importPath; try (left; by rewrite Hrun).
  right. external_run Hrun; rewrite Hrun.
  - left. by eexists _, _, _.
  - right. left. by eexists _, _, _, _, _.
  - right. right. right. by eexists _, _, _, _, _, _, _.
  - right. right. left. by eexists _, _, _, _, _.
Qed.

(** X12: when [CmdAdd] returns [nil], the package had status
    [StatusExternal], and the three steps agree on one local import path:
    it is the [Local] of the manifest entry (whose [Vendor] is the import
    path), the [To] of the only rewrite rule (whose [From] is the import
    path), and, under [RootGopath], the directory the package's [Dir] was
    copied to; the files rewritten are those the second load, made with
    the new manifest entry, found importing the path. *)
Theorem CmdAdd_success (w : World) (importPath : string) :
  let ip := slashToImportPath importPath in
  result_of (CmdAdd importPath w) = Done None ->
  exists (ctx ctx2 : Context) (pkg : Package) (localImportPath : string) (w1 w2 w3 : World),
    let ctx' := Context_append_package ctx (mkVendorPackage ip localImportPath None None) in
    let dst := filepath_Join [Context_RootGopath ctx; slashToFilepath localImportPath] in
    let files := default [] (Context_fileImports ctx2 !! ip) in
    Context_Package ctx !! ip = Some pkg /\
    Package_Status pkg = StatusExternal /\
    localImportPath_of ctx ip = Some localImportPath /\
    writeVendorFile (Context_RootDir ctx) (Context_VendorFile ctx') w = (w1, None) /\
    CopyPackage (Package_Dir pkg) dst w1 = (w2, None) /\
    LoadPackage w2 ctx' [ip] = inl ctx2 /\
    RewriteFiles files [mkRule ip localImportPath] w2 = (w3, None) /\
    CmdAdd importPath w
    = (w3,
       [Call_writeVendorFile (Context_RootDir ctx)
          (mkVendorFile (VendorFile_Tool (Context_VendorFile ctx))
             (VendorFile_Package (Context_VendorFile ctx)
              ++ [mkVendorPackage ip localImportPath None None])) None;
        Call_CopyPackage (Package_Dir pkg) dst None;
        Call_RewriteFiles files [mkRule ip localImportPath] None],
       Done None).
Proof.
  intros ip Hresult. subst ip.
  cases_of_run w importPath; try (by rewrite Hrun in Hresult).
  external_run Hrun; rewrite Hrun in Hresult |- *; try done.
  injection Hresult as ->.
  exists ctx, ctx2, pkg, localImportPath, w1, w2, w3. cbv zeta. done.
Qed.

(** X13: for a loaded package, [CmdAdd] returns [ErrVendorExists] without
    a writing call exactly when the status is [StatusInternal],
    [ErrLocalPackage] exactly when it is [StatusLocal], and
    [ErrNotInGOPATH] exactly when it is none of these nor
    [StatusExternal], and then with the import path. *)
Theorem CmdAdd_rejection_iff (w : World) (importPath : string) (ctx0 ctx : Context)
    (pkg : Package) :
  let ip := slashToImportPath importPath in
  NewContextWD w = inl ctx0 ->
  LoadPackage w ctx0 [ip] = inl ctx ->
  Context_Package ctx !! ip = Some pkg ->
  (CmdAdd importPath w = (w, [], Done (Some ErrVendorExists)) <->
   Package_Status pkg = StatusInternal) /\
  (CmdAdd importPath w = (w, [], Done (Some ErrLocalPackage)) <->
   Package_Status pkg = StatusLocal) /\
  (forall p : string,
     CmdAdd importPath w = (w, [], Done (Some (ErrNotInGOPATH p))) <->
     (p = ip /\ Package_Status pkg <> StatusExternal /\
      Package_Status pkg <> StatusInternal /\ Package_Status pkg <> StatusLocal)).
Proof.
  intros ip Hnew Hload Hpkg.
  destruct (decide (Package_Status pkg = StatusExternal)) as [Hext|Hext].
  - assert (Hcalls : calls_of (CmdAdd importPath w) <> []).
    { destruct (CmdAdd_external w importPath ctx0 ctx pkg Hnew Hload Hpkg Hext)
        as (parts & suf & _ & Hrun).
      external_run Hrun; by rewrite Hrun. }
    split; [|split; [|intros p]]; (split; [intros Hrun; by rewrite Hrun in Hcalls|]).
    + rewrite Hext. done.
    + rewrite Hext. done.
    + intros (_ & ? & _). done.
  - rewrite (CmdAdd_other_status w importPath ctx0 ctx pkg Hnew Hload Hpkg Hext).
    fold ip. unfold status_error.
    destruct (Z.eqb_spec (Package_Status pkg) StatusInternal) as [Hi|Hi].
    { rewrite Hi. split; [done|]. split; [split; done|].
      intros p. split; [done|]. intros (_ & _ & ? & _). done. }
    destruct (Z.eqb_spec (Package_Status pkg) StatusLocal) as [Hl|Hl].
    { rewrite Hl. split; [split; done|]. split; [done|].
      intros p. split; [done|]. intros (_ & _ & _ & ?). done. }
    split; [split; [done|by intros ?]|]. split; [split; [done|by intros ?]|].
    intros p. split.
    + intros [= <-]. done.
    + intros (-> & _). done.
Qed.

End CmdAdd_more.

(** Adding an external package writes; adding [fmt] does not. *)
Lemma CmdAdd_writes_iff_external_witness :
  calls_of (CmdAdd "example.com/foo" Workspace.project) <> [] /\
  calls_of (CmdAdd "fmt" Workspace.project) = [].
Proof.
  split.
  - apply (CmdAdd_writes_iff_external Workspace.project "example.com/foo").
    exists Workspace.project_context0, Workspace.project_context, Workspace.foo.
    repeat split.
  - destruct (calls_of (CmdAdd "fmt" Workspace.project)) as [|c calls] eqn:Hcalls; [done|].
    assert (Hne : calls_of (CmdAdd "fmt" Workspace.project) <> [])
      by (by rewrite Hcalls).
    apply (CmdAdd_writes_iff_external Workspace.project "fmt") in Hne
      as (ctx0 & ctx & pkg & Hnew & Hload & Hpkg & Hext).
    injection Hnew as <-. injection Hload as <-.
    injection Hpkg as <-. discriminate Hext.
Defined.

(** A successful run in the example project. *)
Lemma CmdAdd_success_witness :
  exists (w3 : Workspace.t) (calls : list Call),
    CmdAdd "yours/internal/yourpkg" Workspace.project = (w3, calls, Done None) /\
    length calls = 3%nat.
Proof.
  destruct (CmdAdd_success Workspace.project "yours/internal/yourpkg")
    as (ctx & ctx2 & pkg & localImportPath & w1 & w2 & w3 & _ & _ & _ & _ & _ & _ & _ & Hrun);
    [reflexivity|].
  eexists _, _. split; [exact Hrun|reflexivity].
Defined.

(** Adding the project to itself. *)
Lemma CmdAdd_rejection_iff_witness :
  CmdAdd "proj" Workspace.project = (Workspace.project, [], Done (Some ErrLocalPackage)) /\
  CmdAdd "proj" Workspace.project <> (Workspace.project, [], Done (Some ErrVendorExists)).
Proof.
  destruct (CmdAdd_rejection_iff Workspace.project "proj"
              Workspace.project_context0 Workspace.project_context
              (mkPackage "/go/src/proj" "proj" StatusLocal))
    as (Hinternal & Hlocal & _); [reflexivity..|].
  split.
  - apply Hlocal. reflexivity.
  - intros Hrun. apply Hinternal in Hrun. discriminate Hrun.
Defined.

(** ** The local import path *)

Lemma strings_Split_one_piece (pre suf : string) :
  split_piece internalFolderSlash pre ->
  strings_Index suf internalFolderSlash = -1 ->
  strings_Split (pre ++ internalFolderSlash ++ suf) internalFolderSlash = [pre; suf].
Proof.
  intros Hpre Hsuf.
  apply (strings_Split_Join internalFolderSlash [pre] suf); [done|by repeat constructor|lia].
Qed.

Lemma localImportPath_of_Split (ctx : Context) (importPath : string) (parts : list string)
    (suf : string) :
  strings_Split importPath internalFolderSlash = (parts ++ [suf])%list ->
  localImportPath_of ctx importPath
  = Some (path_Join [Context_RootImportPath ctx; internalFolder; suf]).
Proof. intros Hsplit. unfold localImportPath_of. cbv zeta. by rewrite Hsplit, index_last. Qed.

(** X14: the index expression [ss[len(ss)-1]] of [CmdAdd] is in range for
    every import path, the empty one too: [strings.Split] at
    [internalFolderSlash] returns at least one piece, so the local import
    path is always computed. *)
Theorem localImportPath_in_range (ctx : Context) (importPath : string) :
  let ss := strings_Split importPath internalFolderSlash in
  (1 <= length ss)%nat /\
  is_Some (index ss (Z.of_nat (length ss) - 1)) /\
  is_Some (localImportPath_of ctx importPath).
Proof.
  intros ss. subst ss.
  destruct (strings_Split_pieces importPath internalFolderSlash)
    as (parts & suf & Hsplit & _); [done|].
  rewrite (localImportPath_of_Split ctx importPath parts suf Hsplit), Hsplit, index_last.
  rewrite length_app. simpl. split; [lia|]. split; by eexists.
Qed.

(** X15: the local import path depends only on what follows [/internal/]:
    two import paths with the same last piece, whatever is before their
    [/internal/], and the last piece on its own, get the same local
    import path. *)
Theorem localImportPath_suffix_only (ctx : Context) (pre1 pre2 suf : string) :
  split_piece internalFolderSlash pre1 ->
  split_piece internalFolderSlash pre2 ->
  strings_Index suf internalFolderSlash = -1 ->
  localImportPath_of ctx (pre1 ++ "/internal/" ++ suf)
  = Some (path_Join [Context_RootImportPath ctx; internalFolder; suf]) /\
  localImportPath_of ctx (pre1 ++ "/internal/" ++ suf)
  = localImportPath_of ctx (pre2 ++ "/internal/" ++ suf) /\
  localImportPath_of ctx (pre1 ++ "/internal/" ++ suf) = localImportPath_of ctx suf.
Proof.
  intros Hpre1 Hpre2 Hsuf.
  assert (H1 := strings_Split_one_piece pre1 suf Hpre1 Hsuf).
  assert (H2 := strings_Split_one_piece pre2 suf Hpre2 Hsuf).
  assert (H0 : strings_Split suf internalFolderSlash = ([] ++ [suf])%list).
  { apply (strings_Split_Join internalFolderSlash [] suf); [done|constructor|lia]. }
  change internalFolderSlash with "/internal/" in H1, H2 at 1.
  rewrite (localImportPath_of_Split ctx _ [pre1] suf H1).
  rewrite (localImportPath_of_Split ctx _ [pre2] suf H2).
  by rewrite (localImportPath_of_Split ctx _ [] suf H0).
Qed.

(** [yours/internal/yourpkg], [theirs/internal/yourpkg] and [yourpkg]. *)
Lemma localImportPath_suffix_only_witness :
  localImportPath_of Workspace.project_context "yours/internal/yourpkg"
  = localImportPath_of Workspace.project_context "theirs/internal/yourpkg" /\
  localImportPath_of Workspace.project_context "yours/internal/yourpkg"
  = localImportPath_of Workspace.project_context "yourpkg".
Proof.
  destruct (localImportPath_suffix_only Workspace.project_context
              "yours" "theirs" "yourpkg") as (_ & Hsame & Hbare); [reflexivity..|].
  split; [exact Hsame|exact Hbare].
Defined.

(** X16: for a project whose import path is plain and an import path whose
    last piece is plain, the local import path is the project's import
    path, [/internal/] and the last piece, as they are. *)
Theorem localImportPath_plain (ctx : Context) (parts : list string) (suf : string) :
  Forall (split_piece internalFolderSlash) parts ->
  strings_Index suf internalFolderSlash = -1 ->
  plain_path (Context_RootImportPath ctx) = true ->
  plain_path suf = true ->
  localImportPath_of ctx (strings_Join (parts ++ [suf]) internalFolderSlash)
  = Some (Context_RootImportPath ctx ++ "/internal/" ++ suf).
Proof.
  intros Hparts Hsuf Hroot Hplain.
  rewrite (localImportPath_of_Split ctx _ parts suf).
  - by rewrite path_Join_plain.
  - apply strings_Split_Join; [done|done|lia].
Qed.

(** An import path with two [/internal/] in it. *)
Lemma localImportPath_plain_witness :
  localImportPath_of Workspace.project_context "a/internal/b/internal/github.com/x/y"
  = Some "proj/internal/github.com/x/y".
Proof.
  apply (localImportPath_plain Workspace.project_context ["a"; "b"] "github.com/x/y");
    [repeat constructor|reflexivity..].
Defined.

(** Where [/internal/] can begin at the first byte of [root ++ "/internal/"]:
    inside [root], or [root] is empty or is [/internal]. *)
Lemma prefix_internalFolderSlash_overlap (root : string) :
  String.prefix internalFolderSlash (root ++ internalFolderSlash) = true ->
  String.prefix internalFolderSlash root = true \/ root = "" \/ root = "/internal".
Proof.
  change internalFolderSlash with "/internal/". intros H.
  do 10 (destruct root as [|? root];
         [first [by right; left|by right; right|discriminate H]|];
         rewrite append_cons in H;
         match type of H with
         | String.prefix (String ?a ?s) (String ?b ?t) = _ =>
             change (String.prefix (String a s) (String b t))
               with (if ascii_dec a b then String.prefix s t else false) in H;
             destruct (ascii_dec a b) as [<-|?]; [|discriminate H]
         end).
  left. apply prefix_spec. by exists root.
Qed.

(** A string that holds no [/internal/] and does not end in [/internal]
    is cut off whole by a split at [/internal/]. *)
Lemma split_piece_no_internal (root : string) :
  strings_Index root internalFolderSlash = -1 ->
  ~ (exists pre : string, root = pre ++ "/internal") ->
  split_piece internalFolderSlash root.
Proof.
  unfold split_piece. induction root as [|c r IH]; intros Hidx Hend; [done|].
  rewrite strings_Index_cons in Hidx.
  destruct (String.prefix internalFolderSlash (String c r)) eqn:Hp; [done|].
  assert (Hr : strings_Index r internalFolderSlash = -1).
  { destruct (strings_Index_range r internalFolderSlash) as [?|?]; [done|].
    destruct (Z.ltb_spec (strings_Index r internalFolderSlash) 0); lia. }
  rewrite append_cons, strings_Index_cons.
  destruct (String.prefix internalFolderSlash (String c (r ++ internalFolderSlash))) eqn:Hq.
  { rewrite <- append_cons in Hq.
    apply prefix_internalFolderSlash_overlap in Hq as [Hq|[Hq|Hq]]; [congruence|done|].
    destruct Hend. exists "". by rewrite Hq. }
  rewrite IH; [|done|].
  - simpl String.length. destruct (Z.ltb_spec (Z.of_nat (String.length r)) 0); lia.
  - intros [pre ->]. apply Hend. exists (String c pre). by rewrite append_cons.
Qed.

(** X17: computing the local import path of a local import path gives it
    back, when the project's import path is plain, holds no [/internal/]
    and does not end in [/internal], and the last piece of the import path
    is plain. *)
Theorem localImportPath_idempotent (ctx : Context) (parts : list string) (suf : string) :
  Forall (split_piece internalFolderSlash) parts ->
  strings_Index suf internalFolderSlash = -1 ->
  plain_path suf = true ->
  plain_path (Context_RootImportPath ctx) = true ->
  strings_Index (Context_RootImportPath ctx) internalFolderSlash = -1 ->
  ~ (exists pre : string, Context_RootImportPath ctx = pre ++ "/internal") ->
  exists localImportPath : string,
    localImportPath_of ctx (strings_Join (parts ++ [suf]) internalFolderSlash)
    = Some localImportPath /\
    localImportPath_of ctx localImportPath = Some localImportPath.
Proof.
  intros Hparts Hsuf Hplain Hroot Hfree Hend.
  exists (Context_RootImportPath ctx ++ "/internal/" ++ suf). split.
  - rewrite (localImportPath_of_Split ctx _ parts suf).
    + by rewrite path_Join_plain.
    + apply strings_Split_Join; [done|done|lia].
  - rewrite (localImportPath_of_Split ctx _ [Context_RootImportPath ctx] suf).
    + by rewrite path_Join_plain.
    + apply strings_Split_one_piece; [|done]. by apply split_piece_no_internal.
Qed.

(** [yours/internal/yourpkg] in the example project, whose import path is
    [proj]. *)
Lemma localImportPath_idempotent_witness :
  exists localImportPath : string,
    localImportPath_of Workspace.project_context "yours/internal/yourpkg"
    = Some localImportPath /\
    localImportPath_of Workspace.project_context localImportPath = Some localImportPath.
Proof.
  apply (localImportPath_idempotent Workspace.project_context ["yours"] "yourpkg");
    [repeat constructor|reflexivity|reflexivity|reflexivity|reflexivity|].
  intros [pre Hpre]. apply (f_equal String.length) in Hpre.
  rewrite length_append in Hpre. simpl in Hpre. lia.
Defined.

(** The condition on the end of the project's import path is needed: the
    import path [x/internal] is plain and holds no [/internal/], and there
    the second computation adds one more [internal]. *)
Example localImportPath_root_ends_in_internal :
  let ctx := mkContext "/go/src/x/internal" "/go/src" "x/internal"
               (mkVendorFile toolName []) ∅ ∅ in
  plain_path (Context_RootImportPath ctx) = true /\
  strings_Index (Context_RootImportPath ctx) internalFolderSlash = -1 /\
  localImportPath_of ctx "yours/internal/y" = Some "x/internal/internal/y" /\
  localImportPath_of ctx "x/internal/internal/y" = Some "x/internal/internal/internal/y".
Proof. repeat split; reflexivity. Qed.

(** ** path.Clean on absolute plain paths, and the paths of CmdInit *)

Lemma Clean_loop_plain_rooted (p : string) :
  forall (out : string) (dotdot : nat),
    (plain_from true p = true ->
     Clean_loop true false p out dotdot
     = out ++ (if (String.length out =? 1)%nat then "" else "/") ++ p) /\
    (plain_from false p = true -> (1 < String.length out)%nat ->
     Clean_loop true true p out dotdot = out ++ p).
Proof.
  induction p as [|c p1 IH]; intros out dotdot.
  - split; [done|]. intros _ _. simpl. by rewrite append_nil_r.
  - split.
    + simpl. destruct (is_slash c) eqn:Hs; [done|]. simpl.
      destruct (is_dot c && elem_ends p1) eqn:Hd1; simpl.
      { apply andb_true_iff in Hd1 as [-> ->]. done. }
      intros Hplain.
      assert (Hdefault :
        Clean_loop true true p1
          ((if negb (String.length out =? 1)%nat || false then out ++ "/" else out)
           ++ String c "") dotdot
        = out ++ (if (String.length out =? 1)%nat then "" else "/") ++ String c p1).
      { destruct (IH ((if negb (String.length out =? 1)%nat || false then out ++ "/" else out)
                      ++ String c "") dotdot) as [_ ->].
        - destruct (String.length out =? 1)%nat; simpl; by rewrite !append_assoc.
        - clear -Hplain. destruct (is_dot c); simpl in Hplain; [|done].
          by destruct (elem_ends p1 || _).
        - destruct (String.length out =? 1)%nat eqn:Hlen; simpl;
            rewrite !length_append; simpl; [|lia].
          apply Nat.eqb_eq in Hlen. lia. }
      destruct p1 as [|c1 p2]; [exact Hdefault|].
      destruct (is_dot c && is_dot c1 && elem_ends p2) eqn:Hd2; [|exact Hdefault].
      apply andb_true_iff in Hd2 as [Hd2 He]. apply andb_true_iff in Hd2 as [Hc Hc1].
      rewrite Hc, Hc1, He in Hplain. simpl in Hplain.
      by rewrite orb_true_r in Hplain.
    + simpl. destruct (is_slash c) eqn:Hs; simpl.
      * intros Hplain Hout. apply is_slash_eq in Hs as ->.
        destruct (IH out dotdot) as [-> _]; [|done].
        destruct (String.length out =? 1)%nat eqn:Hlen; [|done].
        apply Nat.eqb_eq in Hlen. lia.
      * intros Hplain Hout.
        destruct (IH (out ++ String c "") dotdot) as [_ ->]; [|done|].
        -- by rewrite append_assoc.
        -- rewrite length_append. simpl. lia.
Qed.

Lemma path_Clean_abs_plain (p : string) : abs_plain_path p = true -> path_Clean p = p.
Proof.
  destruct p as [|c q]; [done|]. simpl. intros Hp.
  apply andb_true_iff in Hp as [Hs Hq]. rewrite Hs.
  apply is_slash_eq in Hs as ->.
  destruct (Clean_loop_plain_rooted q "/" 1) as [-> _]; [|done]. done.
Qed.

Lemma abs_plain_path_append (wd q : string) :
  abs_plain_path wd = true -> plain_path q = true ->
  abs_plain_path (wd ++ "/" ++ q) = true.
Proof.
  destruct wd as [|c wd1]; [done|]. simpl. intros Hwd Hq.
  apply andb_true_iff in Hwd as [-> Hwd]. simpl.
  unfold plain_path in *. by rewrite plain_from_append, Hwd, Hq.
Qed.

Lemma filepath_Join_abs_plain (wd q : string) :
  abs_plain_path wd = true -> plain_path q = true ->
  filepath_Join [wd; q] = wd ++ "/" ++ q.
Proof.
  intros Hwd Hq. unfold filepath_Join, path_Join.
  destruct (String.eqb_spec wd "") as [->|_]; [done|].
  change (strings_Join [wd; q] "/") with (wd ++ "/" ++ q).
  apply path_Clean_abs_plain. by apply abs_plain_path_append.
Qed.

Section CmdInit_more.
Context {World : Type} {env : Env World}.

(** X18: in an absolute plain working directory [wd], the file that
    [CmdInit] looks for is [wd/internal/vendor.json], the directory it
    makes is [wd/internal], and the file is [vendor.json] in that
    directory. *)
Theorem CmdInit_paths (w : World) (wd : string) :
  os_Getwd w = inl wd ->
  abs_plain_path wd = true ->
  filepath_Join [wd; internalVendor] = wd ++ "/internal/vendor.json" /\
  filepath_Join [wd; internalFolder] = wd ++ "/internal" /\
  filepath_Join [filepath_Join [wd; internalFolder]; vendorFilename]
  = filepath_Join [wd; internalVendor] /\
  (os_IsNotExist (os_Stat w (wd ++ "/internal/vendor.json")) = false ->
   CmdInit w = (w, [], Done (Some ErrVendorFileExists))) /\
  (os_IsNotExist (os_Stat w (wd ++ "/internal/vendor.json")) = true ->
   exists (merr : option error) (rest : list Call),
     calls_of (CmdInit w) = Call_MkdirAll (wd ++ "/internal") 511 merr :: rest).
Proof.
  intros Hwd Habs.
  assert (Hvendor : filepath_Join [wd; internalVendor] = wd ++ "/internal/vendor.json")
    by (by apply (filepath_Join_abs_plain wd "internal/vendor.json")).
  assert (Hfolder : filepath_Join [wd; internalFolder] = wd ++ "/internal")
    by (by apply (filepath_Join_abs_plain wd "internal")).
  split; [done|]. split; [done|]. split; [|split].
  - rewrite Hvendor, Hfolder. change vendorFilename with "vendor.json".
    rewrite (filepath_Join_abs_plain (wd ++ "/internal") "vendor.json");
      [|by apply (abs_plain_path_append wd "internal")|done].
    by rewrite append_assoc.
  - intros Hstat. unfold CmdInit, bind, reading, ret. by rewrite Hwd, Hvendor, Hstat.
  - intros Hstat.
    unfold CmdInit, bind, reading, ret, do_MkdirAll, do_writeVendorFile, writing.
    rewrite Hwd, Hvendor, Hstat, Hfolder. simpl.
    destruct (os_MkdirAll _ 511 w) as [w1 [e|]]; [by eexists _, _|].
    destruct (writeVendorFile wd _ w1) as [w2 werr]. simpl. by eexists _, _.
Qed.

(** X19: a run of [CmdInit] either writes nothing and returns an error; or
    calls [MkdirAll] on the internal directory with mode 0777, which fails,
    and returns its error; or calls [MkdirAll] with success and then
    writes, at the working directory, the manifest with the tool's name and
    no package, and returns what the write returns.  It makes no other
    call and never panics. *)
Theorem CmdInit_call_sequence (w : World) :
  let run := CmdInit w in
  (exists e : error, run = (w, [], Done (Some e))) \/
  (exists (wd : string) (e : error),
     os_Getwd w = inl wd /\
     calls_of run = [Call_MkdirAll (filepath_Join [wd; internalFolder]) 511 (Some e)] /\
     result_of run = Done (Some e)) \/
  (exists (wd : string) (werr : option error),
     os_Getwd w = inl wd /\
     os_IsNotExist (os_Stat w (filepath_Join [wd; internalVendor])) = true /\
     calls_of run = [Call_MkdirAll (filepath_Join [wd; internalFolder]) 511 None;
                     Call_writeVendorFile wd (mkVendorFile toolName []) werr] /\
     result_of run = Done werr).
Proof.
  intros run. subst run.
  unfold CmdInit, bind, reading, ret, do_MkdirAll, do_writeVendorFile, writing.
  destruct (os_Getwd w) as [wd|e] eqn:Hwd; [|left; by exists e].
  destruct (os_IsNotExist (os_Stat w (filepath_Join [wd; internalVendor]))) eqn:Hstat;
    simpl; [|left; by eexists].
  right. destruct (os_MkdirAll _ 511 w) as [w1 [e|]]; simpl.
  - left. by exists wd, e.
  - right. destruct (writeVendorFile wd _ w1) as [w2 werr]. simpl. by exists wd, werr.
Qed.

End CmdInit_more.

(** [CmdInit] in a fresh directory makes [/go/src/new/internal]. *)
Lemma CmdInit_paths_witness :
  exists (merr : option error) (rest : list Call),
    calls_of (CmdInit Workspace.fresh)
    = Call_MkdirAll "/go/src/new/internal" 511 merr :: rest.
Proof.
  destruct (CmdInit_paths Workspace.fresh "/go/src/new") as (_ & _ & _ & _ & Hcreate);
    [reflexivity..|].
  apply Hcreate. reflexivity.
Defined.
